(** * ClassParser: rewriting compiled class factories back into classes

    A shallow embedding of [src/ClassParser.ts] and the properties its
    specification states about it.

    The TypeScript source inspects syntax trees as loosely typed records
    ([any]), so the embedding works on a universe of JavaScript values and
    writes out what each property read, index read, spread and array method
    does on every kind of value, including the [TypeError]s they raise.

    Trees are values.  The source updates nodes in place from the callbacks
    it hands to the tree walker; here every callback returns the node as it
    stands after the update and the walker returns the tree as it stands after
    the walk, from which the statement list is read back.  Sharing between
    the tree given to a walk and other live references to its nodes is
    therefore not represented: what a walk changes outside the statement list
    (in the parameter patterns of the function) is not carried over, and a
    callback that gives the root of a walk a new statement list shows in the
    result here, while the source keeps the list it passed in.

    Values carry no object identity.  The one place where the source tells
    objects apart by identity, [parent.declarations.indexOf(node)], is
    therefore taken as given, like the walker and the printer: the rewriter
    is stated for every answer [indexOf] may give, and a run says which
    element of the array, if any, the object it passes is. *)

From Stdlib Require Import String Ascii List ZArith Bool Lia DecimalString.
Import ListNotations.
Open Scope string_scope.
Open Scope Z_scope.

(** ** JavaScript values *)

Module JS.

#[local] Set Warnings "-register-all".

Inductive value : Type :=
| VUndefined
| VNull
| VBool (b : bool)
| VNum (z : Z)
| VStr (s : string)
| VArr (elems : list value)
| VObj (props : list (string * value)).

(** Numbers are integers: the source only computes lengths and indices. *)

Definition nullish (v : value) : bool :=
  match v with VUndefined | VNull => true | _ => false end.

(** [ToBoolean]. *)
Definition truthy (v : value) : bool :=
  match v with
  | VUndefined | VNull => false
  | VBool b => b
  | VNum z => negb (z =? 0)
  | VStr s => negb (s =? "")%string
  | VArr _ | VObj _ => true
  end.

Fixpoint lookup (ps : list (string * value)) (k : string) : value :=
  match ps with
  | [] => VUndefined
  | (k', v) :: ps' => if (k' =? k)%string then v else lookup ps' k
  end.

Definition key_of_index (i : Z) : string :=
  NilZero.string_of_int (Z.to_int i).

Fixpoint chars (s : string) : list value :=
  match s with
  | EmptyString => []
  | String c s' => VStr (String c EmptyString) :: chars s'
  end.

Definition nth_or_undefined (l : list value) (i : Z) : value :=
  if i <? 0 then VUndefined else nth (Z.to_nat i) l VUndefined.

(** [v.k] for a value that is known not to be [undefined] or [null]
    (own data properties only; arrays and strings also have [length]). *)
Definition prop (v : value) (k : string) : value :=
  match v with
  | VObj ps => lookup ps k
  | VArr l => if (k =? "length")%string then VNum (Z.of_nat (length l)) else VUndefined
  | VStr s => if (k =? "length")%string then VNum (Z.of_nat (String.length s)) else VUndefined
  | _ => VUndefined
  end.

(** [v[i]] for a value that is known not to be [undefined] or [null]. *)
Definition at_index (v : value) (i : Z) : value :=
  match v with
  | VArr l => nth_or_undefined l i
  | VStr s => nth_or_undefined (chars s) i
  | VObj ps => lookup ps (key_of_index i)
  | _ => VUndefined
  end.

(** [v?.k] and [v?.[i]]. *)
Definition opt_prop (v : value) (k : string) : value :=
  if nullish v then VUndefined else prop v k.

(** [v === "s"] for a string literal. *)
Definition str_is (v : value) (s : string) : bool :=
  match v with VStr x => (x =? s)%string | _ => false end.

(** [typeof v === 'string'] *)
Definition is_string (v : value) : bool :=
  match v with VStr _ => true | _ => false end.

(** [a === b].  On primitives this is equality of the values.  Objects and
    arrays are compared by reference in JavaScript; the two operands of every
    [===] in the source are read from different places of the tree, hence are
    different objects, and the comparison is [false]. *)
Definition strict_eq (a b : value) : bool :=
  match a, b with
  | VUndefined, VUndefined | VNull, VNull => true
  | VBool x, VBool y => Bool.eqb x y
  | VNum x, VNum y => x =? y
  | VStr x, VStr y => (x =? y)%string
  | _, _ => false
  end.

(** Structural equality: the two values have the same contents.  It is what
    two references to one object always satisfy, and not a test of identity. *)
Fixpoint value_eqb (a b : value) {struct a} : bool :=
  match a, b with
  | VUndefined, VUndefined | VNull, VNull => true
  | VBool x, VBool y => Bool.eqb x y
  | VNum x, VNum y => x =? y
  | VStr x, VStr y => (x =? y)%string
  | VArr xs, VArr ys =>
      (fix go (xs ys : list value) {struct xs} : bool :=
         match xs, ys with
         | [], [] => true
         | x :: xs', y :: ys' => value_eqb x y && go xs' ys'
         | _, _ => false
         end) xs ys
  | VObj ps, VObj qs =>
      (fix go (ps qs : list (string * value)) {struct ps} : bool :=
         match ps, qs with
         | [], [] => true
         | (k, x) :: ps', (l, y) :: qs' =>
             (k =? l)%string && value_eqb x y && go ps' qs'
         | _, _ => false
         end) ps qs
  | _, _ => false
  end.

(** [{...v}]: the own enumerable properties of [v]. *)
Definition indexed (l : list value) : list (string * value) :=
  combine (map (fun n => key_of_index (Z.of_nat n)) (seq 0 (length l))) l.

Definition spread_props (v : value) : list (string * value) :=
  match v with
  | VObj ps => ps
  | VArr l => indexed l
  | VStr s => indexed (chars s)
  | _ => []
  end.

(** Writing a property keeps its place when the key exists and appends it
    otherwise. *)
Fixpoint set_prop (ps : list (string * value)) (k : string) (v : value)
  : list (string * value) :=
  match ps with
  | [] => [(k, v)]
  | (k', v') :: ps' =>
      if (k' =? k)%string then (k, v) :: ps' else (k', v') :: set_prop ps' k v
  end.

Definition set_props (ps upd : list (string * value)) : list (string * value) :=
  fold_left (fun acc kv => set_prop acc (fst kv) (snd kv)) upd ps.

(** [{...v, k1: v1, ..., kn: vn}] *)
Definition spread_with (v : value) (upd : list (string * value)) : value :=
  VObj (set_props (spread_props v) upd).

(** [l.filter((_, i) => i !== idx)], with [i] counted from [from]. *)
Fixpoint drop_index (l : list value) (from idx : Z) : list value :=
  match l with
  | [] => []
  | y :: l' =>
      if from =? idx then drop_index l' (from + 1) idx
      else y :: drop_index l' (from + 1) idx
  end.

End JS.
Export JS.

(** ** Effects: exceptions and the calls made to the outside *)

Module Eff.

Inductive exn := TypeError | LibraryError.

(** What a run does that can be seen from outside: each call of the tree
    walker, with the base visitor it was given, and each [console.warn]. *)
Inductive event :=
| EWalk (base : value)
| EWarn.

Definition trace := list event.

(** [OutOfModel]: the run reached an operation the value universe does not
    cover (coercing an object to a number, giving a named property to an
    array). It is not a JavaScript exception and no handler catches it. *)
Inductive outcome (A : Type) :=
| Val (a : A)
| Exn (e : exn)
| OutOfModel.
Arguments Val {A} a.
Arguments Exn {A} e.
Arguments OutOfModel {A}.

Definition M (A : Type) := trace -> outcome A * trace.

Definition ret {A} (a : A) : M A := fun t => (Val a, t).

Definition bind {A B} (c : M A) (k : A -> M B) : M B :=
  fun t =>
    match c t with
    | (Val a, t') => k a t'
    | (Exn e, t') => (Exn e, t')
    | (OutOfModel, t') => (OutOfModel, t')
    end.

Definition throw {A} (e : exn) : M A := fun t => (Exn e, t).
Definition out_of_model {A} : M A := fun t => (OutOfModel, t).
Definition emit (e : event) : M unit := fun t => (Val tt, (t ++ [e])%list).

Definition lift {A} (o : outcome A) : M A := fun t => (o, t).

(** [try { body } catch (error) { handler }] *)
Definition try_catch {A} (body : M A) (handler : exn -> M A) : M A :=
  fun t =>
    match body t with
    | (Exn e, t') => handler e t'
    | r => r
    end.

(** A computation that leaves no trace: it starts no walk and prints no
    warning. *)
Definition silent {A} (c : M A) : Prop := forall t, snd (c t) = t.

Declare Scope eff_scope.
Delimit Scope eff_scope with eff.
Notation "x <- c1 ;; c2" := (bind c1 (fun x => c2))
  (at level 61, c1 at next level, right associativity) : eff_scope.
Notation "c1 ;;; c2" := (bind c1 (fun _ => c2))
  (at level 61, right associativity) : eff_scope.
Open Scope eff_scope.

Fixpoint mapM {A B} (f : A -> M B) (l : list A) : M (list B) :=
  match l with
  | [] => ret []
  | x :: l' => y <- f x ;; ys <- mapM f l' ;; ret (y :: ys)
  end.

Fixpoint filterM {A} (f : A -> M bool) (l : list A) : M (list A) :=
  match l with
  | [] => ret []
  | x :: l' =>
      b <- f x ;; ys <- filterM f l' ;; ret (if b then x :: ys else ys)
  end.

Fixpoint foldM {A S} (f : S -> A -> M S) (l : list A) (s : S) : M S :=
  match l with
  | [] => ret s
  | x :: l' => s' <- f s x ;; foldM f l' s'
  end.

(** [v.k]: reading a property of [undefined] or [null] raises. *)
Definition get (v : value) (k : string) : M value :=
  if nullish v then throw TypeError else ret (prop v k).

(** [v[i]] *)
Definition get_at (v : value) (i : Z) : M value :=
  if nullish v then throw TypeError else ret (at_index v i).

(** The elements an array spread, a destructuring or a [for ... of] goes
    through: arrays and strings are iterable, nothing else in the universe. *)
Definition iterate (v : value) : M (list value) :=
  match v with
  | VArr l => ret l
  | VStr s => ret (chars s)
  | _ => throw TypeError
  end.

(** The receiver of [map], [filter], [pop]: only arrays have them. *)
Definition as_array (v : value) : M (list value) :=
  match v with
  | VArr l => ret l
  | _ => throw TypeError
  end.

(** [Object.assign(target, { k1: v1, ... })], giving the target afterwards.
    A primitive target is wrapped and the original is left as it was. *)
Definition object_assign (target : value) (upd : list (string * value)) : M value :=
  match target with
  | VUndefined | VNull => throw TypeError
  | VObj ps => ret (VObj (set_props ps upd))
  | VArr _ => out_of_model
  | _ => ret target
  end.

(** [v < n] for a number literal [n] ([ToNumber] on primitives). *)
Definition less_than (v : value) (n : Z) : M bool :=
  match v with
  | VNum z => ret (z <? n)
  | VUndefined => ret false
  | VNull => ret (0 <? n)
  | VBool b => ret ((if b then 1 else 0) <? n)
  | _ => out_of_model
  end.

End Eff.
Export Eff.

(** ** The rewriter *)

Module ClassParser.

Inductive ClassType := Class | NewClass.

Record ClassParsingContext := mkContext {
  ctx_name : value;
  ctx_superClass : value;
  ctx_protoIdentifier : value;
  ctx_classConstructor : value;
  ctx_functionBody : value;
  ctx_walkBase : value
}.

(** [{} as ClassParsingContext]: every field reads [undefined]. *)
Definition empty_context : ClassParsingContext :=
  mkContext VUndefined VUndefined VUndefined VUndefined VUndefined VUndefined.

(** The aliases found in one function body.  A recorded name is the [name]
    of a valid identifier, hence a string. *)
Record replacements := mkReplacements {
  thisProps : option string;
  thisConstructor : option string;
  thisMirror : option string
}.

Definition no_replacements : replacements := mkReplacements None None None.

(** *** The tree walker's side of the interface

    The walker calls the callbacks it is given, and it is the walker that
    decides what [this] is inside them.  The callbacks below are method
    definitions of an object literal, not arrow functions, so their [this] is
    the receiver of that call and not the [this] of the static method that
    builds them. *)
Inductive receiver :=
| ThisClassParser   (* the class itself *)
| ThisVisitors      (* the object literal holding the callbacks *)
| ThisUndefined.    (* a plain function call in strict code *)

Definition callback := receiver -> value -> M value.
Definition visitors := list (string * callback).

(** [this.m] for a static method [m] of the class, about to be called: on the
    visitors object the property is [undefined] and calling it raises; on
    [undefined] the property read raises. *)
Definition static_method (this : receiver) : M unit :=
  match this with
  | ThisClassParser => ret tt
  | ThisVisitors | ThisUndefined => throw TypeError
  end.

(** Node literals. *)
Definition node_of (ty : string) (fields : list (string * value)) : value :=
  VObj (("type", VStr ty) :: fields).

Definition this_expression : value := node_of "ThisExpression" [].

Definition identifier (n : value) : value :=
  node_of "Identifier" [("name", n)].

Definition name_of (id : value) : string :=
  match prop id "name" with VStr s => s | _ => "" end.

(** [idName === o] for a recorded alias [o]. *)
Definition alias_is (o : option string) (idName : string) : bool :=
  match o with Some s => (idName =? s)%string | None => false end.

(** Truthiness of a recorded alias. *)
Definition alias_set (o : option string) : bool :=
  match o with Some s => negb (s =? "")%string | None => false end.

Definition isValidIdentifier (node : value) : bool :=
  truthy node && str_is (prop node "type") "Identifier"
  && is_string (prop node "name").

Definition isValidMemberExpression (node : value) : bool :=
  truthy node && str_is (prop node "type") "MemberExpression"
  && truthy (prop node "object") && truthy (prop node "property").

Definition isValidFunctionExpression (node : value) : bool :=
  truthy node && str_is (prop node "type") "FunctionExpression"
  && truthy (prop node "body") && truthy (prop (prop node "body") "body").

(** [{ ...functionExpression, body: { ...functionExpression.body, body } }],
    the root every walk starts from. *)
Definition with_body (functionExpression body : value) : M value :=
  b <- get functionExpression "body" ;;
  ret (spread_with functionExpression [("body", spread_with b [("body", body)])]).

(** The statement array of a walked root: the array the source passed in and
    finds updated in place afterwards. *)
Definition statements_of (root : value) : value :=
  prop (prop root "body") "body".

(** *** Alias extraction ([extractVariableReplacements]) *)

Definition extract_declarator (r : replacements) (declarator : value)
  : M replacements :=
  id <- get declarator "id" ;;
  let init := prop declarator "init" in
  if negb (isValidIdentifier id) || negb (isValidMemberExpression init)
  then ret r
  else if str_is (prop (prop init "object") "type") "ThisExpression"
          && isValidIdentifier (prop init "property")
  then
    let propertyName := prop (prop init "property") "name" in
    if str_is propertyName "props"
    then ret (mkReplacements (Some (name_of id)) (thisConstructor r) (thisMirror r))
    else if str_is propertyName "constructor"
    then ret (mkReplacements (thisProps r) (Some (name_of id)) (thisMirror r))
    else ret r
  else if str_is (prop init "type") "ThisExpression"
  then ret (mkReplacements (thisProps r) (thisConstructor r) (Some (name_of id)))
  else ret r.

Definition extract_statement (r : replacements) (node : value)
  : M replacements :=
  ty <- get node "type" ;;
  if str_is ty "VariableDeclaration"
  then ds <- iterate (prop node "declarations") ;; foldM extract_declarator ds r
  else ret r.

Definition extractVariableReplacements (functionBody : value) : M replacements :=
  nodes <- iterate functionBody ;;
  foldM extract_statement nodes no_replacements.

(** *** Removing the alias declarations ([cleanupVariableDeclarations]) *)

Definition aliased (r : replacements) (idName : string) : bool :=
  alias_is (thisProps r) idName
  || alias_is (thisConstructor r) idName
  || alias_is (thisMirror r) idName.

Definition keep_declarator (r : replacements) (declarator : value) : M bool :=
  id <- get declarator "id" ;;
  if negb (isValidIdentifier id) then ret true
  else ret (negb (aliased r (name_of id))).

Definition cleanup_statement (r : replacements) (node : value) : M value :=
  ty <- get node "type" ;;
  if str_is ty "VariableDeclaration"
  then
    ds <- as_array (prop node "declarations") ;;
    filtered <- filterM (keep_declarator r) ds ;;
    ret (match filtered with
         | [] => VNull
         | _ => spread_with node [("declarations", VArr filtered)]
         end)
  else ret node.

Definition cleanupVariableDeclarations (functionBody : value) (r : replacements)
  : M value :=
  nodes <- as_array functionBody ;;
  mapped <- mapM (cleanup_statement r) nodes ;;
  ret (VArr (filter truthy mapped)).

(** *** The callbacks *)

(** [{ type: 'MemberExpression', object: { type: 'ThisExpression' },
       property: { type: 'Identifier', name: 'props' } }] *)
Definition this_props_member : value :=
  node_of "MemberExpression"
    [("object", this_expression); ("property", identifier (VStr "props"))].

(** The [MemberExpression] callback of [applyVariableReplacements].  Its first
    statement calls [this.isValidMemberExpression]. *)
Definition memberExpressionVisitor (r : replacements) : callback :=
  fun this node =>
    static_method this ;;;
    if negb (isValidMemberExpression node) then ret node else
    node1 <-
      (if alias_set (thisProps r)
          && isValidIdentifier (prop node "object")
          && alias_is (thisProps r) (name_of (prop node "object"))
       then object_assign node [("object", this_props_member)]
       else ret node) ;;
    node2 <-
      (if isValidIdentifier (prop node1 "object") then
         if alias_set (thisConstructor r)
            && alias_is (thisConstructor r) (name_of (prop node1 "object"))
         then object_assign node1 [("object", this_expression)]
         else if alias_set (thisMirror r)
                 && alias_is (thisMirror r) (name_of (prop node1 "object"))
         then object_assign node1 [("object", this_expression)]
         else ret node1
       else ret node1) ;;
    if str_is (prop (prop node2 "object") "type") "ThisExpression"
       && isValidIdentifier (prop node2 "property")
       && str_is (prop (prop node2 "property") "name") "constructor"
    then object_assign node2 [("type", VStr "ThisExpression")]
    else ret node2.

(** The [Identifier] callback of [replaceIdentifierReferences]; it does not
    use [this]. *)
Definition identifierVisitor (targetIdentifier : value) : callback :=
  fun _ node =>
    n <- get node "name" ;;
    if strict_eq n targetIdentifier
    then object_assign node [("type", VStr "ThisExpression")]
    else ret node.

(** [super(...)] as an expression statement. *)
Definition super_call (args : list value) : value :=
  node_of "ExpressionStatement"
    [("expression",
      node_of "CallExpression"
        [("callee", node_of "Super" []);
         ("arguments", VArr args);
         ("optional", VBool false)])].

Definition spread_args : value :=
  node_of "SpreadElement" [("argument", identifier (VStr "args"))].

Definition rest_args : value :=
  node_of "RestElement" [("argument", identifier (VStr "args"))].

(** The part of both super-call patterns that looks at the assignment
    [x = <call> || this]. *)
Definition super_assignment (stmt : value) (memberCallee : bool) : bool :=
  let e := prop stmt "expression" in
  let r := prop e "right" in
  str_is (opt_prop stmt "type") "ExpressionStatement"
  && str_is (opt_prop e "type") "AssignmentExpression"
  && str_is (opt_prop r "type") "LogicalExpression"
  && str_is (opt_prop (prop r "left") "type") "CallExpression"
  && (if memberCallee
      then str_is (opt_prop (prop (prop r "left") "callee") "type") "MemberExpression"
      else true)
  && str_is (prop r "operator") "||"
  && str_is (opt_prop (prop r "right") "type") "ThisExpression".

(** [lastNode] returns the variable the first statement declares. *)
Definition returns_declared (lastNode d0 : value) : bool :=
  str_is (opt_prop lastNode "type") "ReturnStatement"
  && str_is (opt_prop (prop lastNode "argument") "type") "Identifier"
  && strict_eq (prop (prop lastNode "argument") "name")
               (prop (prop d0 "id") "name").

Definition isSpreadArgumentsPattern
  (functionBody lastNode functionExpression superClass : value) : M bool :=
  if negb (truthy superClass) then ret false else
  params <- get functionExpression "params" ;;
  n <- get params "length" ;;
  if negb (strict_eq n (VNum 0)) then ret false else
  len <- get functionBody "length" ;;
  short <- less_than len 3 ;;
  if (short : bool) then ret false else
  stmts <- iterate functionBody ;;
  let firstStmt := nth 0 stmts VUndefined in
  let secondStmt := nth 1 stmts VUndefined in
  let thirdStmt := nth 2 stmts VUndefined in
  if negb (str_is (opt_prop firstStmt "type") "VariableDeclaration")
  then ret false else
  d0 <- get_at (prop firstStmt "declarations") 0 ;;
  ret (str_is (opt_prop (opt_prop d0 "id") "type") "Identifier"
       && str_is (opt_prop secondStmt "type") "ForStatement"
       && super_assignment thirdStmt false
       && returns_declared lastNode d0).

Definition isRegularSuperCallPattern
  (functionBody lastNode superClass : value) : M bool :=
  if negb (truthy superClass) then ret false else
  len <- get functionBody "length" ;;
  short <- less_than len 2 ;;
  if (short : bool) then ret false else
  stmts <- iterate functionBody ;;
  let firstStmt := nth 0 stmts VUndefined in
  let secondStmt := nth 1 stmts VUndefined in
  if negb (str_is (opt_prop firstStmt "type") "VariableDeclaration")
  then ret false else
  d0 <- get_at (prop firstStmt "declarations") 0 ;;
  ret (str_is (opt_prop (opt_prop d0 "id") "type") "Identifier"
       && super_assignment secondStmt true
       && returns_declared lastNode d0).

(** [functionBody[0].declarations[0].id.name] *)
Definition declared_name (functionBody : value) : M value :=
  s0 <- get_at functionBody 0 ;;
  ds <- get s0 "declarations" ;;
  d0 <- get_at ds 0 ;;
  id <- get d0 "id" ;;
  get id "name".

Section Parser.

(** [walk.ancestor(root, visitors, base)] of acorn-walk and
    [recast.print(node)]: the two outside facilities, taken as given. *)
Variable walk_ancestor : value -> visitors -> value -> M value.
Variable recast_print : value -> outcome value.

(** [array.indexOf(x)] for an object [x]: the position of the first element
    that is the same object as [x], or -1.  Which object a value stands for
    is not part of the value, so the answer is taken as given too. *)
Variable indexOf : value -> list value -> Z.

(** Every call of the walker is recorded with the base visitor it gets. *)
Definition walk (root : value) (vs : visitors) (base : value) : M value :=
  emit (EWalk base) ;;; walk_ancestor root vs base.

Definition replaceIdentifierReferences
  (functionExpression functionBodyClone targetIdentifier walkBase : value)
  : M value :=
  root <- with_body functionExpression functionBodyClone ;;
  root' <- walk root [("Identifier", identifierVisitor targetIdentifier)] walkBase ;;
  ret (statements_of root').

Definition applyVariableReplacements
  (functionExpression functionBody : value) (r : replacements) (walkBase : value)
  : M value :=
  root <- with_body functionExpression functionBody ;;
  root' <- walk root [("MemberExpression", memberExpressionVisitor r)] walkBase ;;
  ret (statements_of root').

Definition parseFunctionBody
  (functionExpression : value) (context : ClassParsingContext) : M value :=
  b <- get functionExpression "body" ;;
  functionBody <- get b "body" ;;
  variableReplacements <- extractVariableReplacements functionBody ;;
  cleanedBody <- cleanupVariableDeclarations functionBody variableReplacements ;;
  applyVariableReplacements functionExpression cleanedBody variableReplacements
    (ctx_walkBase context).

(** The [FunctionExpression] callback of [processNestedFunctions].  Its first
    statement calls [this.isValidFunctionExpression]; the context it passes on
    is [{}]. *)
Definition functionExpressionVisitor : callback :=
  fun this node =>
    static_method this ;;;
    if negb (isValidFunctionExpression node) then ret node else
    body' <- parseFunctionBody node empty_context ;;
    object_assign node
      (set_props (spread_props node)
         [("body", spread_with (prop node "body") [("body", body')])]).

Definition processNestedFunctions
  (functionExpression functionBodyClone walkBase : value) : M value :=
  root <- with_body functionExpression functionBodyClone ;;
  root' <- walk root [("FunctionExpression", functionExpressionVisitor)] walkBase ;;
  ret (statements_of root').

Definition handleSpreadArguments
  (functionBody functionExpression walkBase : value) : M value :=
  _this <- declared_name functionBody ;;
  stmts <- as_array functionBody ;;
  let functionBodyClone := removelast (skipn 3 stmts) in
  replaceIdentifierReferences functionExpression
    (VArr (super_call [spread_args] :: functionBodyClone)) _this walkBase.

Definition handleRegularSuperCall
  (functionBody functionExpression superClass walkBase : value) : M value :=
  _this <- declared_name functionBody ;;
  s1 <- get_at functionBody 1 ;;
  e <- get s1 "expression" ;;
  r <- get e "right" ;;
  _super <- get r "left" ;;
  args <- get _super "arguments" ;;
  superArgs <- iterate args ;;
  stmts <- as_array functionBody ;;
  let functionBodyClone := removelast (skipn 2 stmts) in
  replaceIdentifierReferences functionExpression
    (VArr (super_call (tl superArgs) :: functionBodyClone)) _this walkBase.

Definition parseConstructor
  (functionExpression : value) (context : ClassParsingContext) : M value :=
  let superClass := ctx_superClass context in
  let walkBase := ctx_walkBase context in
  b <- get functionExpression "body" ;;
  functionBody <- get b "body" ;;
  copy <- iterate functionBody ;;
  let len := prop functionBody "length" in
  let lastNode :=
    match len with VNum n => at_index functionBody (n - 1) | _ => VUndefined end in
  if negb (truthy len) || negb (truthy lastNode) then ret functionExpression else
  isSpread <- isSpreadArgumentsPattern functionBody lastNode functionExpression superClass ;;
  functionBodyClone <-
    (if (isSpread : bool)
     then handleSpreadArguments functionBody functionExpression walkBase
     else
       isRegular <- isRegularSuperCallPattern functionBody lastNode superClass ;;
       if (isRegular : bool)
       then handleRegularSuperCall functionBody functionExpression superClass walkBase
       else ret (VArr copy)) ;;
  functionBodyClone' <-
    processNestedFunctions functionExpression functionBodyClone walkBase ;;
  ret (spread_with functionExpression
         [("params", if (isSpread : bool) then VArr [rest_args]
                     else prop functionExpression "params");
          ("body", spread_with b [("body", functionBodyClone')])]).

(** *** Context extraction *)

(** [functionBody[2]?.declarations[0]?.id?.name] *)
Definition proto_identifier (functionBody : value) : M value :=
  s2 <- get_at functionBody 2 ;;
  if nullish s2 then ret VUndefined else
  d0 <- get_at (prop s2 "declarations") 0 ;;
  ret (opt_prop (opt_prop d0 "id") "name").

(** The three tests on the factory's first statement and the constructor
    that come before the printer is called. *)
Definition helper_call_shape (functionBody : value) : bool :=
  let s0 := at_index functionBody 0 in
  let e := prop s0 "expression" in
  str_is (opt_prop s0 "type") "ExpressionStatement"
  && str_is (opt_prop e "type") "CallExpression"
  && strict_eq (opt_prop (prop e "arguments") "length") (VNum 2).

(** [recast.print(a).code === recast.print(b).code] *)
Definition same_printed (a b : value) : M bool :=
  pa <- lift (recast_print a) ;;
  ca <- get pa "code" ;;
  pb <- lift (recast_print b) ;;
  cb <- get pb "code" ;;
  ret (strict_eq ca cb).

(** The conditional that computes [superClass]; [outer] is the call whose
    first argument is taken: [node.init] or [node.init.callee.expression]. *)
Definition super_class_of (classConstructor functionBody outer : value) : M value :=
  cid <- get classConstructor "id" ;;
  if negb (truthy cid) then ret VNull else
  if negb (helper_call_shape functionBody) then ret VNull else
  let helperArgs := prop (prop (at_index functionBody 0) "expression") "arguments" in
  same <- same_printed (at_index helperArgs 0) cid ;;
  if (same : bool)
  then args <- get outer "arguments" ;; get_at args 0
  else ret VNull.

Definition buildClassContext (node parent name : value) : M ClassParsingContext :=
  init <- get node "init" ;;
  rawFunction <- get init "callee" ;;
  b <- get rawFunction "body" ;;
  functionBody <- get b "body" ;;
  protoIdentifier <- proto_identifier functionBody ;;
  classConstructor <- get_at functionBody 1 ;;
  superClass <- super_class_of classConstructor functionBody init ;;
  ret (mkContext name superClass protoIdentifier classConstructor functionBody
         (VObj [])).

Definition buildNewClassContext (node parent name : value) : M ClassParsingContext :=
  init <- get node "init" ;;
  callee <- get init "callee" ;;
  expression <- get callee "expression" ;;
  rawFunction <- get expression "callee" ;;
  b <- get rawFunction "body" ;;
  functionBody <- get b "body" ;;
  protoIdentifier <- proto_identifier functionBody ;;
  classConstructor <- get_at functionBody 1 ;;
  superClass <- super_class_of classConstructor functionBody expression ;;
  ret (mkContext name superClass protoIdentifier classConstructor functionBody
         (VObj [])).

(** The [try] block of [buildParsingContext]. *)
Definition extract_context (node parent : value) (classType : ClassType)
  : M (option ClassParsingContext) :=
  id <- get node "id" ;;
  let name := opt_prop id "name" in
  if negb (truthy name) then ret None else
  match classType with
  | Class => c <- buildClassContext node parent name ;; ret (Some c)
  | NewClass => c <- buildNewClassContext node parent name ;; ret (Some c)
  end.

Definition buildParsingContext (node parent : value) (classType : ClassType)
  : M (option ClassParsingContext) :=
  try_catch (extract_context node parent classType)
    (fun _ => emit EWarn ;;; ret None).

(** *** Shape classification *)

Definition findClassType (node parent : value) : M (option ClassType) :=
  pt <- get parent "type" ;;
  if negb (str_is pt "VariableDeclaration") then ret None else
  init <- get node "init" ;;
  if str_is (opt_prop init "type") "CallExpression"
     && str_is (opt_prop (prop init "callee") "type") "FunctionExpression"
  then ret (Some Class)
  else if str_is (opt_prop init "type") "NewExpression"
          && str_is (opt_prop (prop init "callee") "type") "ParenthesizedExpression"
  then ret (Some NewClass)
  else ret None.

(** *** Methods and the class body *)

Definition method_definition (isStatic key fn : value) : value :=
  node_of "MethodDefinition"
    [("static", isStatic); ("computed", VBool false); ("key", key);
     ("kind", VStr "method"); ("value", fn)].

Definition createConstructorMethod
  (classConstructor : value) (context : ClassParsingContext) : M value :=
  b <- get classConstructor "body" ;;
  body' <- parseFunctionBody classConstructor context ;;
  let constructorExpression :=
    spread_with classConstructor
      [("type", VStr "FunctionExpression"); ("id", VNull);
       ("body", spread_with b [("body", body')])] in
  v <- parseConstructor constructorExpression context ;;
  ret (method_definition (VBool false) (identifier (VStr "constructor")) v).

(** [classConstructor.id && objectName === classConstructor.id.name] *)
Definition names_constructor (classConstructor objectName : value) : M value :=
  cid <- get classConstructor "id" ;;
  ret (if truthy cid then VBool (strict_eq objectName (prop cid "name")) else cid).

Definition method_of_statement
  (protoIdentifier classConstructor : value) (context : ClassParsingContext)
  (statement : value) : M value :=
  ty <- get statement "type" ;;
  if negb (str_is ty "ExpressionStatement") then ret VNull else
  ety <- get (prop statement "expression") "type" ;;
  if negb (str_is ety "AssignmentExpression") then ret VNull else
  let left := prop (prop statement "expression") "left" in
  let right := prop (prop statement "expression") "right" in
  if negb (isValidMemberExpression left) || negb (isValidFunctionExpression right)
  then ret VNull else
  if negb (isValidIdentifier (prop left "object"))
     || negb (isValidIdentifier (prop left "property"))
  then ret VNull else
  let objectName := prop (prop left "object") "name" in
  let methodName := prop (prop left "property") "name" in
  isValidMethodAssignment <-
    (if strict_eq objectName protoIdentifier then ret true
     else c <- names_constructor classConstructor objectName ;; ret (truthy c)) ;;
  if negb isValidMethodAssignment then ret VNull else
  isStatic <- names_constructor classConstructor objectName ;;
  body' <- parseFunctionBody right context ;;
  ret (method_definition isStatic (identifier methodName)
         (spread_with right
            [("id", VNull);
             ("body", spread_with (prop right "body") [("body", body')])])).

Definition createMethodsFromFunctionBody
  (protoIdentifier classConstructor functionBody : value)
  (context : ClassParsingContext) : M (list value) :=
  stmts <- as_array functionBody ;;
  mapM (method_of_statement protoIdentifier classConstructor context) stmts.

Definition buildClassBody
  (protoIdentifier classConstructor functionBody : value)
  (context : ClassParsingContext) : M (list value) :=
  b <- get classConstructor "body" ;;
  stmts <- get b "body" ;;
  s0 <- get_at stmts 0 ;;
  ctor <-
    (if negb (str_is (opt_prop s0 "type") "ReturnStatement")
     then m <- createConstructorMethod classConstructor context ;; ret [m]
     else ret []) ;;
  methods <-
    createMethodsFromFunctionBody protoIdentifier classConstructor functionBody
      context ;;
  ret (ctor ++ methods)%list.

(** *** Assembly *)

(** [{ type: 'ClassDeclaration', id, superClass, body: { type: 'ClassBody',
       body: classBody.filter(Boolean) } }], the fields both shapes write. *)
Definition class_fields (context : ClassParsingContext) (classBody : list value)
  : list (string * value) :=
  [("type", VStr "ClassDeclaration");
   ("id", identifier (ctx_name context));
   ("superClass", ctx_superClass context);
   ("body", node_of "ClassBody" [("body", VArr (filter truthy classBody))])].

Definition parseRegularClass
  (node parent : value) (context : ClassParsingContext) : M value :=
  classBody <-
    buildClassBody (ctx_protoIdentifier context) (ctx_classConstructor context)
      (ctx_functionBody context) context ;;
  ret (spread_with parent (class_fields context classBody)).

(** The declarator [parseNewClass] appends. *)
Definition rewritten_declarator
  (node init : value) (context : ClassParsingContext) (classBody : list value)
  : value :=
  spread_with node
    [("init", spread_with init [("callee", VObj (class_fields context classBody))])].

Definition parseNewClass
  (node parent : value) (context : ClassParsingContext) : M value :=
  classBody <-
    buildClassBody (ctx_protoIdentifier context) (ctx_classConstructor context)
      (ctx_functionBody context) context ;;
  decls <- get parent "declarations" ;;
  ds <- as_array decls ;;
  let declaratorIndex := indexOf node ds in
  let otherDeclarations := drop_index ds 0 declaratorIndex in
  init <- get node "init" ;;
  ret (spread_with parent
         [("declarations",
           VArr (otherDeclarations
                 ++ [rewritten_declarator node init context classBody])%list)]).

Definition parseClassByType
  (classType : ClassType) (node parent : value) (context : ClassParsingContext)
  : M value :=
  match classType with
  | Class => parseRegularClass node parent context
  | NewClass => parseNewClass node parent context
  end.

(** *** The entry point *)

Definition parse (node parent walkBase : value) : M value :=
  if negb (truthy node) || negb (truthy parent) || negb (truthy walkBase)
  then ret parent else
  classType <- findClassType node parent ;;
  match classType with
  | None => ret parent
  | Some ct =>
      context <- buildParsingContext node parent ct ;;
      match context with
      | None => ret parent
      | Some c => parseClassByType ct node parent c
      end
  end.

End Parser.

End ClassParser.

(** ** The outside facilities, for running the rewriter

    The rewriter is stated over any walker and any printer.  To run it on
    concrete trees this section gives the two it is written against:
    acorn-walk's [ancestor] with its default base visitor, on the ES5 node
    kinds, and a printer for the expressions the helper-call test compares.
    Neither is part of the repository.  A run also fixes what [indexOf]
    answers, by saying which object of the heap the rewriter is called on. *)

Module Acorn.
Import ClassParser.

(** The [override] argument of the walker's continuation [c]. *)
Inductive kind :=
| KStatement | KExpression | KPattern | KVariablePattern | KMemberPattern
| KForInit | KFunction.

Definition kind_name (k : kind) : string :=
  match k with
  | KStatement => "Statement"
  | KExpression => "Expression"
  | KPattern => "Pattern"
  | KVariablePattern => "VariablePattern"
  | KMemberPattern => "MemberPattern"
  | KForInit => "ForInit"
  | KFunction => "Function"
  end.

(** What a base handler does with one field of its node. *)
Inductive child :=
| One (f : string) (k : option kind)        (* c(node.f, st, k) *)
| IfSet (f : string) (k : option kind)      (* if (node.f) c(node.f, st, k) *)
| IfFlag (flag f : string) (k : option kind) (* if (node.flag) c(node.f, st, k) *)
| Each (f : string) (k : option kind)       (* for (x of node.f) c(x, st, k) *)
| EachSet (f : string) (k : option kind)    (* for (x of node.f) if (x) c(x, st, k) *)
| IfEach (f : string) (k : option kind).    (* if (node.f) for (x of node.f) c(x, st, k) *)

Definition is_in (s : string) (l : list string) : bool :=
  existsb (fun x => (x =? s)%string) l.

(** The default base visitor, by node type. *)
Definition children (ty : string) : option (list child) :=
  let E := Some KExpression in
  let S := Some KStatement in
  let P := Some KPattern in
  if is_in ty ["Program"; "BlockStatement"] then Some [Each "body" S]
  else if is_in ty ["EmptyStatement"; "BreakStatement"; "ContinueStatement";
                    "DebuggerStatement"; "ThisExpression"; "Super";
                    "Identifier"; "Literal"] then Some []
  else if is_in ty ["ExpressionStatement"; "ParenthesizedExpression"]
  then Some [One "expression" E]
  else if is_in ty ["IfStatement"]
  then Some [One "test" E; One "consequent" S; IfSet "alternate" S]
  else if is_in ty ["LabeledStatement"] then Some [One "body" S]
  else if is_in ty ["WithStatement"] then Some [One "object" E; One "body" S]
  else if is_in ty ["SwitchStatement"]
  then Some [One "discriminant" E; Each "cases" None]
  else if is_in ty ["SwitchCase"] then Some [IfSet "test" E; Each "consequent" S]
  else if is_in ty ["ReturnStatement"] then Some [IfSet "argument" E]
  else if is_in ty ["ThrowStatement"; "SpreadElement"] then Some [One "argument" E]
  else if is_in ty ["TryStatement"]
  then Some [One "block" S; IfSet "handler" None; IfSet "finalizer" S]
  else if is_in ty ["CatchClause"] then Some [IfSet "param" P; One "body" S]
  else if is_in ty ["WhileStatement"; "DoWhileStatement"]
  then Some [One "test" E; One "body" S]
  else if is_in ty ["ForStatement"]
  then Some [IfSet "init" (Some KForInit); IfSet "test" E; IfSet "update" E;
             One "body" S]
  else if is_in ty ["ForInStatement"]
  then Some [One "left" (Some KForInit); One "right" E; One "body" S]
  else if is_in ty ["VariableDeclaration"] then Some [Each "declarations" None]
  else if is_in ty ["VariableDeclarator"] then Some [One "id" P; IfSet "init" E]
  else if is_in ty ["RestElement"] then Some [One "argument" P]
  else if is_in ty ["ArrayExpression"] then Some [EachSet "elements" E]
  else if is_in ty ["ObjectExpression"] then Some [Each "properties" None]
  else if is_in ty ["Property"]
  then Some [IfFlag "computed" "key" E; IfSet "value" E]
  else if is_in ty ["SequenceExpression"] then Some [Each "expressions" E]
  else if is_in ty ["UnaryExpression"; "UpdateExpression"]
  then Some [One "argument" E]
  else if is_in ty ["BinaryExpression"; "LogicalExpression"]
  then Some [One "left" E; One "right" E]
  else if is_in ty ["AssignmentExpression"] then Some [One "left" P; One "right" E]
  else if is_in ty ["ConditionalExpression"]
  then Some [One "test" E; One "consequent" E; One "alternate" E]
  else if is_in ty ["NewExpression"; "CallExpression"]
  then Some [One "callee" E; IfEach "arguments" E]
  else if is_in ty ["MemberExpression"]
  then Some [One "object" E; IfFlag "computed" "property" E]
  else None.

Definition is_function_type (ty : string) : bool :=
  is_in ty ["FunctionDeclaration"; "FunctionExpression"; "ArrowFunctionExpression"].

(** [base.Function] *)
Definition function_children (node : value) : list child :=
  [IfSet "id" (Some KPattern); Each "params" (Some KPattern);
   One "body" (Some (if truthy (prop node "expression")
                     then KExpression else KStatement))].

(** A walked child takes the place of the one it came from. *)
Definition put (node : value) (f : string) (x : value) : value :=
  match node with
  | VObj ps => VObj (set_prop ps f x)
  | _ => node
  end.

Definition put_elems (node : value) (f : string) (xs : list value) : value :=
  match prop node f with
  | VArr _ => put node f (VArr xs)
  | _ => node
  end.

Fixpoint find_callback (vs : visitors) (ty : string) : option callback :=
  match vs with
  | [] => None
  | (k, cb) :: vs' => if (k =? ty)%string then Some cb else find_callback vs' ty
  end.

(** [if (visitors[type]) visitors[type](node, st || ancestors, ancestors)],
    with [this] the receiver the callback is run on. *)
Definition call_visitor (this : receiver) (vs : visitors) (ty : string)
  (node : value) : M value :=
  match find_callback vs ty with
  | Some cb => cb this node
  | None => ret node
  end.

Section Walk.

Variable this : receiver.
Variable vs : visitors.

(** The continuation [c(node, st, override)].  [fuel] bounds the nesting of
    calls; a run that exhausts it is outside the model. *)
Fixpoint visit (fuel : nat) (node : value) (override : option kind) {struct fuel}
  : M value :=
  match fuel with
  | O => out_of_model
  | S fuel' =>
      let c := visit fuel' in
      let walk_child (node : value) (ch : child) : M value :=
        match ch with
        | One f k => x <- c (prop node f) k ;; ret (put node f x)
        | IfSet f k =>
            if truthy (prop node f)
            then x <- c (prop node f) k ;; ret (put node f x)
            else ret node
        | IfFlag flag f k =>
            if truthy (prop node flag)
            then x <- c (prop node f) k ;; ret (put node f x)
            else ret node
        | Each f k =>
            xs <- iterate (prop node f) ;;
            xs' <- mapM (fun x => c x k) xs ;;
            ret (put_elems node f xs')
        | EachSet f k =>
            xs <- iterate (prop node f) ;;
            xs' <- mapM (fun x => if truthy x then c x k else ret x) xs ;;
            ret (put_elems node f xs')
        | IfEach f k =>
            if truthy (prop node f)
            then xs <- iterate (prop node f) ;;
                 xs' <- mapM (fun x => c x k) xs ;;
                 ret (put_elems node f xs')
            else ret node
        end in
      match override with
      | None =>
          ty <- get node "type" ;;
          match ty with
          | VStr t =>
              node' <-
                (if is_function_type t then c node (Some KFunction)
                 else match children t with
                      | Some chs => foldM walk_child chs node
                      | None => out_of_model
                      end) ;;
              call_visitor this vs t node'
          | _ => throw TypeError
          end
      | Some k =>
          node' <-
            match k with
            | KStatement | KExpression | KMemberPattern => c node None
            | KVariablePattern => ret node
            | KPattern =>
                ty <- get node "type" ;;
                if str_is ty "Identifier" then c node (Some KVariablePattern)
                else if str_is ty "MemberExpression" then c node (Some KMemberPattern)
                else c node None
            | KForInit =>
                ty <- get node "type" ;;
                if str_is ty "VariableDeclaration" then c node None
                else c node (Some KExpression)
            | KFunction => foldM walk_child (function_children node) node
            end ;;
          call_visitor this vs (kind_name k) node'
      end
  end.

End Walk.

(** The fuel of a walk is taken from the depth of its tree. *)
Fixpoint depth (v : value) : nat :=
  match v with
  | VArr l => S (fold_right (fun x n => Nat.max (depth x) n) O l)
  | VObj ps => S (fold_right (fun kv n => Nat.max (depth (snd kv)) n) O ps)
  | _ => 1%nat
  end.

(** [walk.ancestor(root, visitors, base)].  With no base the default one is
    used; a base given as a value of this universe has no handler that can be
    called, and the first [baseVisitor[type](...)] raises.  A callback is
    called as a method of the visitors object. *)
Definition ancestor (root : value) (vs : visitors) (base : value) : M value :=
  if truthy base then throw TypeError
  else visit ThisVisitors vs (4 * depth root + 4) root None.

(** The walker the callbacks of the rewriter are written for, which
    acorn-walk is not: it walks with the default base visitor whatever base
    it is given, and runs the callbacks with the class as [this]. *)
Definition intended (root : value) (vs : visitors) (base : value) : M value :=
  visit ThisClassParser vs (4 * depth root + 4) root None.

End Acorn.

Module Recast.
Import ClassParser.

Fixpoint code (fuel : nat) (node : value) : option string :=
  match fuel with
  | O => None
  | S fuel' =>
      match prop node "type" with
      | VStr "Identifier" =>
          match prop node "name" with VStr s => Some s | _ => None end
      | VStr "ThisExpression" => Some "this"
      | VStr "MemberExpression" =>
          match code fuel' (prop node "object"), code fuel' (prop node "property") with
          | Some o, Some p =>
              Some (if truthy (prop node "computed")
                    then o ++ "[" ++ p ++ "]" else o ++ "." ++ p)
          | _, _ => None
          end
      | _ => None
      end
  end.

(** [recast.print(node)], on identifiers, [this] and member accesses. *)
Definition print (node : value) : outcome value :=
  match code (Acorn.depth node) node with
  | Some s => Val (VObj [("code", VStr s)])
  | None => OutOfModel
  end.

End Recast.

Module Heap.

(** [l.indexOf(x)] in a heap where [x] is the object at position [i] of [l]
    and at no earlier position.  The position is given, not searched for:
    other elements may have the same contents as [x] without being [x].  An
    object that is an element has that element's contents; a position
    outside the array, or one that holds something else, is no position of
    [x]. *)
Definition element (i : nat) (x : value) (l : list value) : Z :=
  match nth_error l i with
  | Some y => if value_eqb y x then Z.of_nat i else -1
  | None => -1
  end.

(** [l.indexOf(x)] in a heap where [x] is no element of [l], whatever the
    contents: a copy of an element, say. *)
Definition no_element (x : value) (l : list value) : Z := -1.

End Heap.

(** ** What the specification's words mean on trees *)

Module Spec.
Import ClassParser.

(** The elements of a statement or declarator list. *)
Definition elems (v : value) : list value :=
  match v with
  | VArr l => l
  | VStr s => chars s
  | _ => []
  end.

(** The declarators one top-level statement contributes. *)
Definition statement_declarators (node : value) : list value :=
  if str_is (prop node "type") "VariableDeclaration"
  then elems (prop node "declarations") else [].

(** The declarators of the top-level variable declarations of a body, in
    source order. *)
Definition declarators_of (functionBody : value) : list value :=
  flat_map statement_declarators (elems functionBody).

(** [declarator] declares an identifier whose initializer is [this.target]. *)
Definition aliases (target : string) (declarator : value) : bool :=
  let init := prop declarator "init" in
  isValidIdentifier (prop declarator "id")
  && isValidMemberExpression init
  && str_is (prop (prop init "object") "type") "ThisExpression"
  && isValidIdentifier (prop init "property")
  && str_is (prop (prop init "property") "name") target.

(** The names declared by the declarators among [ds] that alias
    [this.target]. *)
Definition names_among (target : string) (ds : list value) : list string :=
  map (fun d => name_of (prop d "id")) (filter (aliases target) ds).

Definition alias_names (target : string) (functionBody : value) : list string :=
  names_among target (declarators_of functionBody).

(** The name declared by the last declarator that aliases [this.target]. *)
Definition last_alias (target : string) (functionBody : value) : option string :=
  last (map Some (alias_names target functionBody)) None.

(** The name declared by the first one. *)
Definition first_alias (target : string) (functionBody : value) : option string :=
  hd_error (alias_names target functionBody).

(** The inheritance-helper idiom: the constructor has a name, the factory's
    first statement is an expression statement calling some function with
    exactly two arguments, and the first of them prints like the
    constructor's name. *)
Definition helper_idiom
  (print : value -> outcome value) (classConstructor functionBody : value) : Prop :=
  truthy (prop classConstructor "id") = true
  /\ helper_call_shape functionBody = true
  /\ exists pa pb,
       print (at_index (prop (prop (at_index functionBody 0) "expression")
                          "arguments") 0) = Val pa
       /\ print (prop classConstructor "id") = Val pb
       /\ strict_eq (prop pa "code") (prop pb "code") = true.

(** The expression that carries the superclass as its first argument: the
    call itself, or the parenthesized call inside the [new] expression. *)
Definition outer_call (classType : ClassType) (node : value) : value :=
  match classType with
  | Class => prop node "init"
  | NewClass => prop (prop (prop node "init") "callee") "expression"
  end.

(** The ways a call of [parse] ends without a rewrite: an argument is
    missing, no shape is recognized, or the [try] block of the context
    builder gives no context or raises. *)
Definition no_match
  (print : value -> outcome value) (node parent walkBase : value) (t : trace) : Prop :=
  truthy node = false
  \/ truthy parent = false
  \/ truthy walkBase = false
  \/ fst (findClassType node parent t) = Val None
  \/ exists ct,
       fst (findClassType node parent t) = Val (Some ct)
       /\ (fst (extract_context print node parent ct t) = Val None
           \/ exists e, fst (extract_context print node parent ct t) = Exn e).

(** The last element of a declaration's declarator list. *)
Definition last_declarator (declaration : value) : value :=
  last (elems (prop declaration "declarations")) VUndefined.

End Spec.

(** ** Sample trees *)

Module Trees.
Import ClassParser.

Definition ident (s : string) : value := identifier (VStr s).

Definition member (o p : value) : value :=
  node_of "MemberExpression"
    [("object", o); ("property", p); ("computed", VBool false)].

Definition expr_stmt (e : value) : value :=
  node_of "ExpressionStatement" [("expression", e)].

Definition declarator (id init : value) : value :=
  node_of "VariableDeclarator" [("id", id); ("init", init)].

Definition var_decl (ds : list value) : value :=
  node_of "VariableDeclaration" [("declarations", VArr ds); ("kind", VStr "var")].

Definition block (ss : list value) : value :=
  node_of "BlockStatement" [("body", VArr ss)].

Definition func (ty : string) (id : value) (params ss : list value) : value :=
  node_of ty [("id", id); ("params", VArr params); ("body", block ss)].

Definition call (callee : value) (args : list value) : value :=
  node_of "CallExpression" [("callee", callee); ("arguments", VArr args)].

Definition new_paren (e : value) : value :=
  node_of "NewExpression"
    [("callee", node_of "ParenthesizedExpression" [("expression", e)]);
     ("arguments", VArr [])].

Definition assign (l r : value) : value :=
  node_of "AssignmentExpression" [("operator", VStr "="); ("left", l); ("right", r)].

Definition ret_stmt (a : value) : value :=
  node_of "ReturnStatement" [("argument", a)].

Definition logical_or (l r : value) : value :=
  node_of "LogicalExpression" [("operator", VStr "||"); ("left", l); ("right", r)].

Definition literal (z : Z) : value := node_of "Literal" [("value", VNum z)].

(** A traversal configuration a caller might pass. *)
Definition someBase : value := VObj [("custom", VBool true)].

(** [function () { var self = this; self.y; }] *)
Definition selfAlias : value :=
  func "FunctionExpression" VNull []
    [var_decl [declarator (ident "self") this_expression];
     expr_stmt (member (ident "self") (ident "y"))].

(** [function () { var p = this.props; p.z; }] *)
Definition propsAlias : value :=
  func "FunctionExpression" VNull []
    [var_decl [declarator (ident "p") (member this_expression (ident "props"))];
     expr_stmt (member (ident "p") (ident "z"))].

(** [function () { var a = this.props; var b = this.props; a.x; b.y; }] *)
Definition twoAliases : value :=
  func "FunctionExpression" VNull []
    [var_decl [declarator (ident "a") (member this_expression (ident "props"))];
     var_decl [declarator (ident "b") (member this_expression (ident "props"))];
     expr_stmt (member (ident "a") (ident "x"));
     expr_stmt (member (ident "b") (ident "y"))].

(** [function () { this.constructor; }] *)
Definition usesConstructor : value :=
  func "FunctionExpression" VNull []
    [expr_stmt (member this_expression (ident "constructor"))].

(** [function () { }] *)
Definition emptyFunction : value := func "FunctionExpression" VNull [] [].

(** [function Bar(a, b) { var _this; _this = _Foo.call(this, a, b) || this;
     return _this; }] *)
Definition barConstructor : value :=
  func "FunctionDeclaration" (ident "Bar") [ident "a"; ident "b"]
    [var_decl [declarator (ident "_this") VNull];
     expr_stmt
       (assign (ident "_this")
          (logical_or
             (call (member (ident "_Foo") (ident "call"))
                [this_expression; ident "a"; ident "b"])
             this_expression));
     ret_stmt (ident "_this")].

(** [function (_Foo) { _inherits(Bar, _Foo); function Bar(a, b) { ... }
     var _proto = Bar.prototype; _proto.get = function () { return this.x; };
     return Bar; }] *)
Definition barFactory : value :=
  func "FunctionExpression" VNull [ident "_Foo"]
    [expr_stmt (call (ident "_inherits") [ident "Bar"; ident "_Foo"]);
     barConstructor;
     var_decl [declarator (ident "_proto") (member (ident "Bar") (ident "prototype"))];
     expr_stmt
       (assign (member (ident "_proto") (ident "get"))
          (func "FunctionExpression" VNull []
             [ret_stmt (member this_expression (ident "x"))]));
     ret_stmt (ident "Bar")].

(** [var Bar = (function (_Foo) { ... })(Foo);] *)
Definition barDeclarator : value :=
  declarator (ident "Bar") (call barFactory [ident "Foo"]).

Definition barDeclaration : value := var_decl [barDeclarator].

(** The same factory called with no argument: [(function (_Foo) { ... })()]. *)
Definition barNoArgument : value :=
  declarator (ident "Bar") (call barFactory []).

(** [function () { a; b; var p; }]: the second statement is not a function. *)
Definition oddFactory : value :=
  func "FunctionExpression" VNull []
    [expr_stmt (ident "a"); expr_stmt (ident "b");
     var_decl [declarator (ident "p") VNull]].

(** [var X = (function () { a; b; var p; })();] *)
Definition oddDeclarator : value := declarator (ident "X") (call oddFactory []).
Definition oddDeclaration : value := var_decl [oddDeclarator].

(** [function (_Base) { _inherits(Tag, _Base); function Tag() { return 1; }
     var _proto = Tag.prototype; return Tag; }]: the constructor starts with a
    [return] and there are no methods. *)
Definition tagFactory : value :=
  func "FunctionExpression" VNull [ident "_Base"]
    [expr_stmt (call (ident "_inherits") [ident "Tag"; ident "_Base"]);
     func "FunctionDeclaration" (ident "Tag") [] [ret_stmt (literal 1)];
     var_decl [declarator (ident "_proto") (member (ident "Tag") (ident "prototype"))];
     ret_stmt (ident "Tag")].

(** [var Tag = (function (_Base) { ... })(Base);] *)
Definition tagDeclarator : value :=
  declarator (ident "Tag") (call tagFactory [ident "Base"]).
Definition tagDeclaration : value := var_decl [tagDeclarator].

(** [var first = 1, Tag = new (function (_Base) { ... }(Base))(), last = 2;] *)
Definition firstDeclarator : value := declarator (ident "first") (literal 1).
Definition lastDeclarator : value := declarator (ident "last") (literal 2).
Definition newTagDeclarator : value :=
  declarator (ident "Tag") (new_paren (call tagFactory [ident "Base"])).
Definition newTagDeclaration : value :=
  var_decl [firstDeclarator; newTagDeclarator; lastDeclarator].

(** [var Foo = (function () { function Foo(x) { this.x = x; }
     Foo.prototype.get = function () { return this.x; }; return Foo; })();]:
    the third statement of the factory is the [return]. *)
Definition fooFactory : value :=
  func "FunctionExpression" VNull []
    [func "FunctionDeclaration" (ident "Foo") [ident "x"]
       [expr_stmt (assign (member this_expression (ident "x")) (ident "x"))];
     expr_stmt
       (assign (member (member (ident "Foo") (ident "prototype")) (ident "get"))
          (func "FunctionExpression" VNull []
             [ret_stmt (member this_expression (ident "x"))]));
     ret_stmt (ident "Foo")].

Definition fooDeclarator : value := declarator (ident "Foo") (call fooFactory []).
Definition fooDeclaration : value := var_decl [fooDeclarator].

(** [var Baz = (function () { init(); function Baz() { this.constructor; }
     var _proto = Baz.prototype; return Baz; })();] *)
Definition bazFactory : value :=
  func "FunctionExpression" VNull []
    [expr_stmt (call (ident "init") []);
     func "FunctionDeclaration" (ident "Baz") []
       [expr_stmt (member this_expression (ident "constructor"))];
     var_decl [declarator (ident "_proto") (member (ident "Baz") (ident "prototype"))];
     ret_stmt (ident "Baz")].

Definition bazDeclarator : value := declarator (ident "Baz") (call bazFactory []).
Definition bazDeclaration : value := var_decl [bazDeclarator].

(** The rewriter run with acorn-walk and the printer, on the object that is
    declarator [i] of the declaration; [run_parse] is the run on the first
    declarator. *)
Definition run_parse_at (i : nat) :=
  parse Acorn.ancestor Recast.print (Heap.element i).
Definition run_parse := run_parse_at 0.
Definition run_parseFunctionBody := parseFunctionBody Acorn.ancestor.
Definition run_parseConstructor := parseConstructor Acorn.ancestor.

(** The rewriter run with the walker its callbacks are written for. *)
Definition intended_parse := parse Acorn.intended Recast.print (Heap.element 0).
Definition intended_parseFunctionBody := parseFunctionBody Acorn.intended.

(** The statement list of the constructor of a class that [parse] returns. *)
Definition constructor_statements (classDeclaration : value) : value :=
  statements_of
    (prop (at_index (prop (prop classDeclaration "body") "body") 0) "value").

(** The contexts of the [Bar] and [Tag] factories. *)
Definition barContext : ClassParsingContext :=
  mkContext (VStr "Bar") (ident "Foo") (VStr "_proto") barConstructor
    (statements_of barFactory) (VObj []).

Definition tagContext : ClassParsingContext :=
  mkContext (VStr "Tag") (ident "Base") (VStr "_proto")
    (at_index (statements_of tagFactory) 1) (statements_of tagFactory) (VObj []).

(** The constructor of [Bar] as [createConstructorMethod] hands it on, and a
    context that leaves the choice of base visitor to the walker. *)
Definition barConstructorExpression : value :=
  spread_with barConstructor [("type", VStr "FunctionExpression"); ("id", VNull)].

Definition barContextDefaultBase : ClassParsingContext :=
  mkContext (VStr "Bar") (ident "Foo") (VStr "_proto") barConstructor
    (statements_of barFactory) VUndefined.

(** What the rewriter gives for the two [Tag] declarations. *)
Definition tagOutput : value :=
  Eval vm_compute in
    match fst (run_parse tagDeclarator tagDeclaration someBase []) with
    | Val v => v
    | _ => VUndefined
    end.

(** [var Tag = new (...)(), last = 2, Tag = new (...)();]: the first and the
    third declarator have the same contents and are two objects. *)
Definition twinTagDeclaration : value :=
  var_decl [newTagDeclarator; lastDeclarator; newTagDeclarator].

Definition newTagOutput : value :=
  Eval vm_compute in
    match fst (run_parse_at 1 newTagDeclarator newTagDeclaration someBase []) with
    | Val v => v
    | _ => VUndefined
    end.


Definition copyTagOutput : value :=
  Eval vm_compute in
    match fst (parse Acorn.ancestor Recast.print Heap.no_element
                 newTagDeclarator twinTagDeclaration someBase []) with
    | Val v => v
    | _ => VUndefined
    end.

End Trees.

(** ** More of what the code does, in the words of its reader *)

Module Behaviour.
Import ClassParser Spec.

(** The factory function of a candidate: the callee of the call that carries
    the superclass. *)
Definition factory_function (ct : ClassType) (node : value) : value :=
  prop (outer_call ct node) "callee".

(** The statements of the factory's body. *)
Definition factory_statements (ct : ClassType) (node : value) : value :=
  statements_of (factory_function ct node).

(** [node.id?.name] *)
Definition candidate_name (node : value) : value :=
  opt_prop (prop node "id") "name".

(** [functionBody[2]?.declarations[0]?.id?.name], where it can be read. *)
Definition third_statement_name (functionBody : value) : value :=
  if nullish (at_index functionBody 2) then VUndefined
  else opt_prop
         (opt_prop (at_index (prop (at_index functionBody 2) "declarations") 0) "id")
         "name".

(** A declarator that declares a name recorded as an alias. *)
Definition carries_alias (r : replacements) (declarator : value) : bool :=
  isValidIdentifier (prop declarator "id")
  && aliased r (name_of (prop declarator "id")).

(** A statement as the clean-up leaves it: kept only if truthy, and a variable
    declaration only with declarators left, none of which declares a recorded
    alias. *)
Definition clean_statement (r : replacements) (s : value) : Prop :=
  truthy s = true
  /\ (str_is (prop s "type") "VariableDeclaration" = true ->
      exists ds,
        prop s "declarations" = VArr ds /\ ds <> []
        /\ Forall (fun d => nullish d = false /\ carries_alias r d = false) ds).

(** The name the first declarator of a declaration declares:
    [stmt.declarations[0].id.name]. *)
Definition first_declared_name (stmt : value) : value :=
  prop (prop (at_index (prop stmt "declarations") 0) "id") "name".

(** The call of [x = <call> || this]: [stmt.expression.right.left]. *)
Definition super_call_of (stmt : value) : value :=
  prop (prop (prop stmt "expression") "right") "left".

(** [statement] is [Identifier.Identifier = FunctionExpression;]. *)
Definition assigns_function (statement : value) : bool :=
  let e := prop statement "expression" in
  let left := prop e "left" in
  str_is (prop statement "type") "ExpressionStatement"
  && str_is (prop e "type") "AssignmentExpression"
  && isValidMemberExpression left
  && isValidFunctionExpression (prop e "right")
  && isValidIdentifier (prop left "object")
  && isValidIdentifier (prop left "property").

(** The two names of the assignment's target. *)
Definition assignment_object (statement : value) : value :=
  prop (prop (prop (prop statement "expression") "left") "object") "name".

Definition assignment_property (statement : value) : value :=
  prop (prop (prop (prop statement "expression") "left") "property") "name".

(** [objectName] is the name of the constructor. *)
Definition is_constructor_name (classConstructor objectName : value) : bool :=
  truthy (prop classConstructor "id")
  && strict_eq objectName (prop (prop classConstructor "id") "name").

(** [statement] assigns a function to a member of the prototype alias or of
    the constructor. *)
Definition is_method
  (protoIdentifier classConstructor statement : value) : bool :=
  assigns_function statement
  && (strict_eq (assignment_object statement) protoIdentifier
      || is_constructor_name classConstructor (assignment_object statement)).

(** The constructor's body starts with a [return]. *)
Definition returns_at_once (classConstructor : value) : bool :=
  str_is (opt_prop (at_index (statements_of classConstructor) 0) "type")
    "ReturnStatement".

(** The fields the class assembler writes. *)
Definition class_key (k : string) : bool :=
  existsb (String.eqb k) ["type"; "id"; "superClass"; "body"].

End Behaviour.

(** ** More sample trees *)

Module MoreTrees.
Import ClassParser Trees.

(** [var { a } = (function () { s; function K() {} var _p; })();]: the
    declarator binds a pattern, which has no name. *)
Definition patternDeclarator : value :=
  declarator (node_of "ObjectPattern" [("properties", VArr [])])
    (call (func "FunctionExpression" VNull []
             [expr_stmt (ident "s");
              func "FunctionDeclaration" (ident "K") [] [];
              var_decl [declarator (ident "_p") VNull]]) []).
Definition patternDeclaration : value := var_decl [patternDeclarator].

(** [var one = (function () { return 1; })();] *)
Definition oneDeclarator : value :=
  declarator (ident "one")
    (call (func "FunctionExpression" VNull [] [ret_stmt (literal 1)]) []).
Definition oneDeclaration : value := var_decl [oneDeclarator].

(** [function () { var p = this.props, q = 1; var p = 2; p.z; }] *)
Definition shadowedAlias : value :=
  func "FunctionExpression" VNull []
    [var_decl [declarator (ident "p") (member this_expression (ident "props"));
               declarator (ident "q") (literal 1)];
     var_decl [declarator (ident "p") (literal 2)];
     expr_stmt (member (ident "p") (ident "z"))].

(** What the clean-up leaves of it once [p] is recorded:
    [var q = 1; p.z;]. *)
Definition shadowedAliasCleaned : value :=
  Eval vm_compute in
    match fst (cleanupVariableDeclarations (statements_of shadowedAlias)
                 (mkReplacements (Some "p") None None) []) with
    | Val v => v
    | _ => VUndefined
    end.

(** The statements of the constructor of [Bar]. *)
Definition barStatements : list value :=
  Spec.elems (statements_of barConstructor).

(** [function Rest() { var _this; for (;;) {} _this = _Foo.apply(this, args)
     || this; _this.x = 1; return _this; }] *)
Definition restConstructor : value :=
  func "FunctionExpression" VNull []
    [var_decl [declarator (ident "_this") VNull];
     node_of "ForStatement"
       [("init", VNull); ("test", VNull); ("update", VNull);
        ("body", block [])];
     expr_stmt
       (assign (ident "_this")
          (logical_or
             (call (member (ident "_Foo") (ident "apply"))
                [this_expression; ident "args"])
             this_expression));
     expr_stmt (assign (member (ident "_this") (ident "x")) (literal 1));
     ret_stmt (ident "_this")].

Definition restStatements : list value :=
  Spec.elems (statements_of restConstructor).

(** The constructor of [Bar] as [parseConstructor] returns it when the
    callbacks are run on the class. *)
Definition barConstructorRewritten : value :=
  Eval vm_compute in
    match fst (parseConstructor Acorn.intended barConstructorExpression
                 barContextDefaultBase []) with
    | Val v => v
    | _ => VUndefined
    end.

(** [_proto.get = function () { return this.x; };] of the [Bar] factory, and
    the method made of it when the callbacks are run on the class. *)
Definition getAssignment : value := at_index (statements_of barFactory) 3.

Definition getMethod : value :=
  Eval vm_compute in
    match fst (method_of_statement Acorn.intended (VStr "_proto") barConstructor
                 barContext getAssignment []) with
    | Val v => v
    | _ => VUndefined
    end.

(** [return Bar;], the last statement of the [Bar] factory. *)
Definition returnBar : value := at_index (statements_of barFactory) 4.

(** The class body of [Bar] when the callbacks are run on the class. *)
Definition barBody : list value :=
  Eval vm_compute in
    match fst (buildClassBody Acorn.intended (VStr "_proto") barConstructor
                 (statements_of barFactory) barContext []) with
    | Val l => l
    | _ => []
    end.

End MoreTrees.

(** * Properties *)

Import ClassParser Spec.

(** ** Values *)

Lemma value_ind_nested (P : value -> Prop) :
  P VUndefined -> P VNull ->
  (forall b, P (VBool b)) -> (forall z, P (VNum z)) -> (forall s, P (VStr s)) ->
  (forall l, Forall P l -> P (VArr l)) ->
  (forall ps, Forall (fun kv => P (snd kv)) ps -> P (VObj ps)) ->
  forall v, P v.
Proof.
  intros Hu Hn Hb Hz Hs Ha Ho.
  fix IH 1.
  intros [ | | b | z | s | l | ps];
    [exact Hu | exact Hn | apply Hb | apply Hz | apply Hs | | ].
  - apply Ha. induction l as [|x l IHl]; constructor; [apply IH | exact IHl].
  - apply Ho. induction ps as [|[k x] ps IHps]; constructor; [apply IH | exact IHps].
Qed.

Lemma value_eqb_refl : forall v, value_eqb v v = true.
Proof.
  induction v using value_ind_nested; simpl; auto.
  - apply Bool.eqb_reflx.
  - apply Z.eqb_refl.
  - apply String.eqb_refl.
  - induction H as [|x l Hx Hl IHl]; [reflexivity|].
    rewrite Hx. exact IHl.
  - induction H as [|[k x] ps Hx Hps IHps]; [reflexivity|].
    simpl in Hx. rewrite String.eqb_refl, Hx. exact IHps.
Qed.

Lemma value_eqb_eq : forall a b, value_eqb a b = true -> a = b.
Proof.
  induction a using value_ind_nested; intros [ | | b' | z' | s' | l' | ps'] E;
    simpl in E; try discriminate; auto.
  - apply Bool.eqb_prop in E. congruence.
  - apply Z.eqb_eq in E. congruence.
  - apply String.eqb_eq in E. congruence.
  - f_equal. revert l' E.
    induction H as [|x l Hx Hl IHl]; intros [|y l'] E; try discriminate; auto.
    apply andb_true_iff in E as [E1 E2].
    f_equal; [apply Hx; exact E1 | apply IHl; exact E2].
  - f_equal. revert ps' E.
    induction H as [|[k x] ps Hx Hps IHps]; intros [|[k' y] ps'] E;
      try discriminate; auto.
    apply andb_true_iff in E as [E12 E3].
    apply andb_true_iff in E12 as [E1 E2].
    apply String.eqb_eq in E1. simpl in Hx. apply Hx in E2.
    f_equal; [congruence | apply IHps; exact E3].
Qed.

Lemma drop_index_before : forall l i j, j < i -> drop_index l i j = l.
Proof.
  induction l as [|y l IH]; intros i j Hlt; simpl; [reflexivity|].
  destruct (i =? j) eqn:E; [apply Z.eqb_eq in E; lia|].
  f_equal. apply IH. lia.
Qed.


Lemma lookup_set_prop_same : forall ps k v, lookup (set_prop ps k v) k = v.
Proof.
  induction ps as [|[k' v'] ps IH]; intros k v; simpl.
  - rewrite String.eqb_refl. reflexivity.
  - destruct (k' =? k)%string eqn:E; simpl.
    + rewrite String.eqb_refl. reflexivity.
    + rewrite E. apply IH.
Qed.

Lemma lookup_set_prop_other : forall ps k k' v,
  k <> k' -> lookup (set_prop ps k' v) k = lookup ps k.
Proof.
  induction ps as [|[k0 v0] ps IH]; intros k k' v Hne; simpl.
  - destruct (k' =? k)%string eqn:E; [apply String.eqb_eq in E; congruence|].
    reflexivity.
  - destruct (k0 =? k')%string eqn:E; simpl.
    + apply String.eqb_eq in E. subst k0.
      destruct (k' =? k)%string eqn:E'; [apply String.eqb_eq in E'; congruence|].
      reflexivity.
    + destruct (k0 =? k)%string; [reflexivity|]. apply IH. exact Hne.
Qed.

Lemma truthy_not_nullish : forall v, truthy v = true -> nullish v = false.
Proof.
  intros [ | | b | z | s | l | ps] H; simpl in *; congruence.
Qed.

(** A value with a string [type] is an object. *)
Lemma typed_is_object : forall v s,
  str_is (opt_prop v "type") s = true -> exists ps, v = VObj ps.
Proof.
  intros [ | | b | z | x | l | ps] s H; simpl in H; try discriminate.
  eexists; reflexivity.
Qed.

(** ** Runs *)

Lemma bind_val_inv : forall A B (c : M A) (k : A -> M B) t b t',
  bind c k t = (Val b, t') ->
  exists a t1, c t = (Val a, t1) /\ k a t1 = (Val b, t').
Proof.
  intros A B c k t b t' H. unfold bind in H.
  destruct (c t) as [[a | e | ] t1]; try discriminate.
  exists a, t1. split; [reflexivity | exact H].
Qed.

Lemma get_val_inv : forall v k t x t',
  get v k t = (Val x, t') -> nullish v = false /\ x = prop v k /\ t' = t.
Proof.
  intros v k t x t' H. unfold get in H.
  destruct (nullish v); [discriminate|].
  unfold ret in H. inversion H. auto.
Qed.

Lemma as_array_val_inv : forall v t l t',
  as_array v t = (Val l, t') -> v = VArr l /\ t' = t.
Proof.
  intros [ | | b | z | s | l0 | ps] t l t' H; simpl in H;
    try discriminate. inversion H. auto.
Qed.

Lemma findClassType_trace : forall node parent t,
  snd (findClassType node parent t) = t.
Proof.
  intros node parent t. unfold findClassType, bind, get, ret, throw.
  destruct (nullish parent); simpl; [reflexivity|].
  destruct (negb (str_is (prop parent "type") "VariableDeclaration"));
    simpl; [reflexivity|].
  destruct (nullish node); simpl; [reflexivity|].
  repeat match goal with |- context [if ?b then _ else _] => destruct b end;
    reflexivity.
Qed.

Lemma silent_ret : forall A (a : A), silent (ret a).
Proof. intros A a t. reflexivity. Qed.

Lemma silent_throw : forall A e, silent (@throw A e).
Proof. intros A e t. reflexivity. Qed.

Lemma silent_lift : forall A (o : outcome A), silent (lift o).
Proof. intros A o t. reflexivity. Qed.

Lemma silent_get : forall v k, silent (get v k).
Proof. intros v k t. unfold get. destruct (nullish v); reflexivity. Qed.

Lemma silent_get_at : forall v i, silent (get_at v i).
Proof. intros v i t. unfold get_at. destruct (nullish v); reflexivity. Qed.

Lemma silent_bind : forall A B (c : M A) (k : A -> M B),
  silent c -> (forall a, silent (k a)) -> silent (bind c k).
Proof.
  intros A B c k Hc Hk t. unfold bind. specialize (Hc t).
  destruct (c t) as [[a | e | ] t1]; simpl in Hc; subst t1;
    [apply Hk | reflexivity | reflexivity].
Qed.

Lemma silent_if : forall A (b : bool) (c1 c2 : M A),
  silent c1 -> silent c2 -> silent (if b then c1 else c2).
Proof. intros A [|] c1 c2 H1 H2; assumption. Qed.

Ltac silence :=
  repeat first
    [ apply silent_ret | apply silent_throw | apply silent_lift
    | apply silent_get | apply silent_get_at
    | apply silent_if
    | apply silent_bind; [| intro] ].

Lemma extract_context_silent : forall print node parent ct,
  silent (extract_context print node parent ct).
Proof.
  intros print node parent ct. unfold extract_context.
  apply silent_bind; [apply silent_get | intro id].
  apply silent_if; [apply silent_ret|].
  destruct ct;
    unfold buildClassContext, buildNewClassContext, proto_identifier,
      super_class_of, same_printed;
    silence.
Qed.

Lemma findClassType_some_inv : forall node parent t ct,
  fst (findClassType node parent t) = Val (Some ct) ->
  exists ns ps qs,
    node = VObj ns /\ parent = VObj ps
    /\ str_is (lookup ps "type") "VariableDeclaration" = true
    /\ lookup ns "init" = VObj qs
    /\ match ct with
       | Class =>
           str_is (lookup qs "type") "CallExpression" = true
           /\ str_is (opt_prop (lookup qs "callee") "type") "FunctionExpression" = true
       | NewClass =>
           str_is (lookup qs "type") "NewExpression" = true
           /\ str_is (opt_prop (lookup qs "callee") "type") "ParenthesizedExpression" = true
       end.
Proof.
  intros node parent t ct H. unfold findClassType, bind, get, ret, throw in H.
  destruct (nullish parent) eqn:Np; simpl in H; [discriminate|].
  destruct (str_is (prop parent "type") "VariableDeclaration") eqn:Tp;
    simpl in H; [|discriminate].
  destruct (nullish node) eqn:Nn; simpl in H; [discriminate|].
  assert (Hp : exists ps, parent = VObj ps).
  { apply typed_is_object with (s := "VariableDeclaration").
    unfold opt_prop. rewrite Np. exact Tp. }
  destruct Hp as [ps ->]. simpl in Tp.
  assert (Hinit : forall s, str_is (opt_prop (prop node "init") "type") s = true ->
                  exists ns qs, node = VObj ns /\ lookup ns "init" = VObj qs).
  { intros s Hs. apply typed_is_object in Hs as [qs Hq].
    destruct node as [ | | b | z | x | l | ns]; simpl in Hq; try discriminate;
      try (destruct (_ =? _)%string in Hq; discriminate).
    exists ns, qs. split; [reflexivity | exact Hq]. }
  destruct (str_is (opt_prop (prop node "init") "type") "CallExpression") eqn:T1;
    simpl in H.
  - destruct (str_is (opt_prop (prop (prop node "init") "callee") "type")
                "FunctionExpression") eqn:T2; simpl in H.
    + inversion H; subst ct.
      destruct (Hinit _ T1) as (ns & qs & -> & Hq).
      exists ns, ps, qs. simpl in T1, T2. rewrite Hq in T1, T2.
      unfold opt_prop in T1; simpl in T1, T2.
      repeat split; auto.
    + destruct (str_is (opt_prop (prop node "init") "type") "NewExpression") eqn:T3;
        simpl in H; [|discriminate].
      destruct (Hinit _ T1) as (ns & qs & -> & Hq).
      simpl in T1, T3. rewrite Hq in T1, T3.
      unfold opt_prop in T1, T3; simpl in T1, T3.
      destruct (lookup qs "type"); simpl in T1, T3; try discriminate.
      apply String.eqb_eq in T1, T3. congruence.
  - destruct (str_is (opt_prop (prop node "init") "type") "NewExpression") eqn:T3;
      simpl in H; [|discriminate].
    destruct (str_is (opt_prop (prop (prop node "init") "callee") "type")
                "ParenthesizedExpression") eqn:T4; simpl in H; [|discriminate].
    inversion H; subst ct.
    destruct (Hinit _ T3) as (ns & qs & -> & Hq).
    exists ns, ps, qs. simpl in T3, T4. rewrite Hq in T3, T4.
    unfold opt_prop in T3; simpl in T3, T4.
    repeat split; auto.
Qed.

Lemma class_fields_type : forall ps context classBody,
  lookup (set_props ps (class_fields context classBody)) "type"
  = VStr "ClassDeclaration".
Proof.
  intros ps context classBody. unfold class_fields, set_props. simpl.
  rewrite !lookup_set_prop_other by discriminate.
  apply lookup_set_prop_same.
Qed.

Section Properties.

Variable walk_ancestor : value -> visitors -> value -> M value.
Variable recast_print : value -> outcome value.
Variable indexOf : value -> list value -> Z.

(** C10. A constructor whose statement list is empty comes back from
    [parseConstructor] as it went in, and the walker is not called: no
    super-call pattern is looked for, the parameters are not rewritten and
    nested functions are not processed. *)
Theorem parseConstructor_empty_body : forall functionExpression context t,
  statements_of functionExpression = VArr [] ->
  parseConstructor walk_ancestor functionExpression context t
  = (Val functionExpression, t).
Proof.
  intros fe ctx t H. unfold statements_of in H.
  destruct fe as [ | | b | z | s | l | ps]; simpl in H; try discriminate;
    try (destruct (_ =? _)%string in H; discriminate).
  unfold parseConstructor, bind, get. simpl.
  destruct (lookup ps "body") as [ | | b | z | s | l | qs] eqn:Eb;
    simpl in H; try discriminate;
    try (destruct (_ =? _)%string in H; discriminate).
  simpl. rewrite H. reflexivity.
Qed.

(** C1, as amended.  [parse] gives back [parent], without raising and
    without starting a walk, whenever an argument is missing, no shape is
    recognized, or the [try] block of the context builder gives no context
    or raises; the context builder itself never raises, whatever is raised
    inside it, and neither does the shape classifier on arguments that are
    present. *)
Theorem parse_no_match_returns_parent : forall node parent walkBase t,
  no_match recast_print node parent walkBase t ->
  (exists t', parse walk_ancestor recast_print indexOf node parent walkBase t
              = (Val parent, t')
              /\ (t' = t \/ t' = (t ++ [EWarn])%list))
  /\ (forall ct e,
        fst (buildParsingContext recast_print node parent ct t) <> Exn e)
  /\ (truthy node = true -> truthy parent = true ->
      exists o, findClassType node parent t = (Val o, t)).
Proof.
  intros node parent walkBase t H. split; [|split].
  3:{ intros Hn Hp. apply truthy_not_nullish in Hn, Hp.
      unfold findClassType, bind, get. rewrite Hn, Hp. unfold ret.
      repeat match goal with |- context [if ?b then _ else _] => destruct b end;
        eexists; reflexivity. }
  - unfold parse.
    destruct (negb (truthy node) || negb (truthy parent) || negb (truthy walkBase))
      eqn:E; [exists t; split; [reflexivity | left; reflexivity]|].
    apply orb_false_iff in E as [E E3]. apply orb_false_iff in E as [E1 E2].
    apply negb_false_iff in E1, E2, E3.
    pose proof (findClassType_trace node parent t) as Ht.
    destruct H as [H | [H | [H | [H | (ct & H & Hc)]]]]; try congruence.
    + unfold bind. destruct (findClassType node parent t) as [[o | e | ] t1];
        simpl in H, Ht; try discriminate. inversion H; subst t1.
      exists t. split; [reflexivity | left; reflexivity].
    + unfold bind at 1. destruct (findClassType node parent t) as [[o | e | ] t1];
        simpl in H, Ht; try discriminate. inversion H; subst o t1.
      pose proof (extract_context_silent recast_print node parent ct t) as Hs.
      unfold bind, buildParsingContext, try_catch.
      destruct (extract_context recast_print node parent ct t) as [[o | e | ] t1];
        simpl in Hc, Hs; subst t1.
      * destruct Hc as [Hc | [e Hc]]; [|discriminate].
        inversion Hc. exists t. split; [reflexivity | left; reflexivity].
      * exists (t ++ [EWarn])%list. split; [reflexivity | right; reflexivity].
      * destruct Hc as [Hc | [e Hc]]; discriminate.
  - intros ct e. unfold buildParsingContext, try_catch.
    destruct (extract_context recast_print node parent ct t) as [[o | e' | ] t1];
      simpl; discriminate.
Qed.

(** C8. The output of a rewrite is left alone by a second run: a class
    declaration is not a variable declaration, whatever declarator it is
    tried with, and the declarator rewritten for the wrapped shape has a
    class declaration as the callee of its [new] expression, which is no
    parenthesized expression.  This holds wherever the declarator sat in the
    first run and whatever [indexOf] would answer in the second. *)
Theorem rewrite_is_idempotent :
  forall node parent walkBase ct context t t1 out t',
  truthy walkBase = true ->
  fst (findClassType node parent t) = Val (Some ct) ->
  buildParsingContext recast_print node parent ct t = (Val (Some context), t1) ->
  parse walk_ancestor recast_print indexOf node parent walkBase t = (Val out, t') ->
  forall indexOf2 walkBase2 t2,
    match ct with
    | Class =>
        forall node2,
          parse walk_ancestor recast_print indexOf2 node2 out walkBase2 t2
          = (Val out, t2)
    | NewClass =>
        parse walk_ancestor recast_print indexOf2 (last_declarator out) out
          walkBase2 t2
        = (Val out, t2)
    end.
Proof.
  intros node parent walkBase ct context t t1 out t' Hw Hf Hc Hp
    indexOf2 walkBase2 t2.
  pose proof (findClassType_trace node parent t) as Ht.
  destruct (findClassType_some_inv _ _ _ _ Hf)
    as (ns & ps & qs & -> & -> & Tp & Hinit & Hshape).
  unfold parse in Hp. rewrite Hw in Hp. simpl in Hp.
  unfold bind at 1 in Hp.
  destruct (findClassType (VObj ns) (VObj ps) t) as [[o | e | ] t0];
    simpl in Hf, Ht; try discriminate.
  inversion Hf; subst o t0.
  unfold bind at 1 in Hp. rewrite Hc in Hp.
  destruct ct; simpl in Hp.
  - (* the direct shape *)
    unfold parseRegularClass in Hp.
    apply bind_val_inv in Hp as (classBody & t3 & _ & Hp).
    unfold ret in Hp. inversion Hp; subst out t'.
    intros node2. unfold parse.
    destruct (negb (truthy node2)
              || negb (truthy (spread_with (VObj ps) (class_fields context classBody)))
              || negb (truthy walkBase2)); [reflexivity|].
    unfold findClassType, get, bind, spread_with.
    cbn [nullish prop spread_props]. rewrite class_fields_type. reflexivity.
  - (* the wrapped shape *)
    unfold parseNewClass in Hp.
    apply bind_val_inv in Hp as (classBody & t3 & _ & Hp).
    apply bind_val_inv in Hp as (decls & t4 & Hd & Hp).
    apply bind_val_inv in Hp as (ds & t5 & Hds & Hp).
    apply bind_val_inv in Hp as (init & t6 & Hi & Hp).
    apply get_val_inv in Hi as (_ & Hi & _). simpl in Hi. rewrite Hinit in Hi.
    subst init. unfold ret in Hp. inversion Hp; subst out t'. clear Hp.
    unfold last_declarator. simpl.
    rewrite lookup_set_prop_same. simpl. rewrite last_last.
    unfold parse. simpl.
    destruct (negb (truthy walkBase2)); [reflexivity|].
    unfold findClassType, get, bind, ret. simpl.
    rewrite lookup_set_prop_other by discriminate. rewrite Tp. simpl.
    rewrite lookup_set_prop_same.
    unfold opt_prop, spread_with, set_props. simpl.
    rewrite lookup_set_prop_same.
    rewrite lookup_set_prop_other by discriminate. simpl.
    rewrite !andb_false_r.
    destruct Hshape as [Tn _].
    destruct (lookup qs "type") as [ | | b | z | s | l | rs]; simpl in Tn;
      try discriminate.
    apply String.eqb_eq in Tn. subst s. reflexivity.
Qed.


(** X21. Called on an object that is no element of [parent.declarations],
    a copy of a declarator for one, [parseNewClass] drops nothing: the
    rewritten declarator comes after all the declarators there were. *)
Theorem parseNewClass_of_no_element :
  forall node parent context t out t' ds,
  parseNewClass walk_ancestor indexOf node parent context t = (Val out, t') ->
  prop parent "declarations" = VArr ds ->
  indexOf node ds = -1 ->
  exists classBody,
    prop out "declarations"
    = VArr (ds ++ [rewritten_declarator node (prop node "init") context classBody]).
Proof.
  intros node parent context t out t' ds Hp Hd Hno.
  unfold parseNewClass in Hp.
  apply bind_val_inv in Hp as (classBody & t3 & _ & Hp).
  apply bind_val_inv in Hp as (decls & t4 & Hg & Hp).
  apply bind_val_inv in Hp as (ds' & t5 & Hds & Hp).
  apply bind_val_inv in Hp as (init & t6 & Hi & Hp).
  apply get_val_inv in Hg as (_ & -> & _).
  apply as_array_val_inv in Hds as (Hds & _).
  apply get_val_inv in Hi as (_ & -> & _).
  rewrite Hd in Hds. inversion Hds; subst ds'.
  unfold ret in Hp. inversion Hp; subst out t'.
  exists classBody. unfold spread_with, set_props. simpl.
  rewrite lookup_set_prop_same. rewrite Hno.
  rewrite drop_index_before by lia. reflexivity.
Qed.

End Properties.

Lemma parseConstructor_empty_body_witness :
  statements_of Trees.emptyFunction = VArr []
  /\ Trees.run_parseConstructor Trees.emptyFunction empty_context []
     = (Val Trees.emptyFunction, []).
Proof.
  split; [reflexivity|].
  apply (parseConstructor_empty_body Acorn.ancestor Trees.emptyFunction
           empty_context []).
  reflexivity.
Defined.

(** ** Alias extraction *)

Lemma last_cons : forall A (l : list A) (x d : A), last (x :: l) d = last l x.
Proof.
  induction l as [|y l IH]; intros x d; [reflexivity|].
  change (last (x :: y :: l) d) with (last (y :: l) d).
  rewrite (IH y d), (IH y x). reflexivity.
Qed.

Lemma last_append : forall A (l1 l2 : list A) (d : A),
  last (l1 ++ l2) d = last l2 (last l1 d).
Proof.
  induction l1 as [|x l1 IH]; intros l2 d; [reflexivity|].
  rewrite <- app_comm_cons, !last_cons. apply IH.
Qed.

Lemma iterate_val_inv : forall v t l t',
  iterate v t = (Val l, t') -> l = elems v /\ t' = t.
Proof.
  intros [ | | b | z | s | l0 | ps] t l t' H; simpl in H;
    try discriminate; inversion H; auto.
Qed.

Lemma names_among_cons : forall target d ds,
  names_among target (d :: ds)
  = ((if aliases target d then [name_of (prop d "id")] else [])
     ++ names_among target ds)%list.
Proof.
  intros target d ds. unfold names_among. simpl.
  destruct (aliases target d); reflexivity.
Qed.

Lemma names_among_app : forall target ds1 ds2,
  names_among target (ds1 ++ ds2)
  = (names_among target ds1 ++ names_among target ds2)%list.
Proof.
  intros target ds1 ds2. unfold names_among.
  rewrite filter_app, map_app. reflexivity.
Qed.

Lemma str_is_props_not_constructor : forall v,
  str_is v "props" = true -> str_is v "constructor" = false.
Proof.
  intros [ | | b | z | s | l | ps] H; simpl in *; try discriminate.
  apply String.eqb_eq in H. subst s. reflexivity.
Qed.

Lemma extract_declarator_spec : forall r d t r' t',
  extract_declarator r d t = (Val r', t') ->
  t' = t
  /\ thisProps r'
     = (if aliases "props" d then Some (name_of (prop d "id")) else thisProps r)
  /\ thisConstructor r'
     = (if aliases "constructor" d then Some (name_of (prop d "id"))
        else thisConstructor r).
Proof.
  intros r d t r' t' H. unfold extract_declarator in H.
  apply bind_val_inv in H as (id & t1 & Hid & H).
  apply get_val_inv in Hid as (_ & -> & ->).
  unfold aliases.
  destruct (isValidIdentifier (prop d "id")); simpl in H |- *;
    [|inversion H; auto].
  destruct (isValidMemberExpression (prop d "init")); simpl in H |- *;
    [|inversion H; auto].
  destruct (str_is (prop (prop (prop d "init") "object") "type") "ThisExpression");
    simpl in H |- *.
  - destruct (isValidIdentifier (prop (prop d "init") "property"));
      simpl in H |- *.
    + destruct (str_is (prop (prop (prop d "init") "property") "name") "props")
        eqn:Ep.
      * rewrite (str_is_props_not_constructor _ Ep). inversion H; auto.
      * destruct (str_is (prop (prop (prop d "init") "property") "name")
                    "constructor"); inversion H; auto.
    + destruct (str_is (prop (prop d "init") "type") "ThisExpression");
        inversion H; auto.
  - destruct (str_is (prop (prop d "init") "type") "ThisExpression");
      inversion H; auto.
Qed.

Lemma extract_declarators_spec : forall ds r t r' t',
  foldM extract_declarator ds r t = (Val r', t') ->
  t' = t
  /\ thisProps r' = last (map Some (names_among "props" ds)) (thisProps r)
  /\ thisConstructor r'
     = last (map Some (names_among "constructor" ds)) (thisConstructor r).
Proof.
  induction ds as [|d ds IH]; intros r t r' t' H; simpl in H.
  - inversion H; auto.
  - apply bind_val_inv in H as (r1 & t1 & Hd & H).
    apply extract_declarator_spec in Hd as (-> & Hp & Hc).
    apply IH in H as (-> & Hp' & Hc'). split; [reflexivity|].
    rewrite Hp', Hc', Hp, Hc, !names_among_cons, !map_app, !last_append.
    destruct (aliases "props" d), (aliases "constructor" d); auto.
Qed.

Lemma extract_statement_spec : forall r node t r' t',
  extract_statement r node t = (Val r', t') ->
  t' = t
  /\ thisProps r'
     = last (map Some (names_among "props" (statement_declarators node))) (thisProps r)
  /\ thisConstructor r'
     = last (map Some (names_among "constructor" (statement_declarators node)))
         (thisConstructor r).
Proof.
  intros r node t r' t' H. unfold extract_statement in H.
  apply bind_val_inv in H as (ty & t1 & Hty & H).
  apply get_val_inv in Hty as (_ & -> & ->).
  unfold statement_declarators.
  destruct (str_is (prop node "type") "VariableDeclaration").
  - apply bind_val_inv in H as (ds & t1 & Hds & H).
    apply iterate_val_inv in Hds as (-> & ->).
    apply extract_declarators_spec in H. exact H.
  - inversion H; auto.
Qed.

Lemma extract_statements_spec : forall nodes r t r' t',
  foldM extract_statement nodes r t = (Val r', t') ->
  t' = t
  /\ thisProps r'
     = last (map Some (names_among "props" (flat_map statement_declarators nodes)))
         (thisProps r)
  /\ thisConstructor r'
     = last (map Some (names_among "constructor" (flat_map statement_declarators nodes)))
         (thisConstructor r).
Proof.
  induction nodes as [|n nodes IH]; intros r t r' t' H; simpl in H.
  - inversion H; auto.
  - apply bind_val_inv in H as (r1 & t1 & Hn & H).
    apply extract_statement_spec in Hn as (-> & Hp & Hc).
    apply IH in H as (-> & Hp' & Hc'). split; [reflexivity|].
    simpl. rewrite !names_among_app, !map_app, !last_append.
    rewrite Hp', Hc', Hp, Hc. auto.
Qed.

(** C4, as amended.  The scan records at most one name for [this.props] and
    at most one for [this.constructor], and when several top-level
    declarators alias the same one of them it is the last that is recorded:
    the earlier ones are not tracked. *)
Theorem extract_last_alias_wins : forall functionBody t r t',
  extractVariableReplacements functionBody t = (Val r, t') ->
  thisProps r = last_alias "props" functionBody
  /\ thisConstructor r = last_alias "constructor" functionBody.
Proof.
  intros functionBody t r t' H. unfold extractVariableReplacements in H.
  apply bind_val_inv in H as (nodes & t1 & Hn & H).
  apply iterate_val_inv in Hn as (-> & ->).
  apply extract_statements_spec in H as (_ & Hp & Hc).
  unfold last_alias, alias_names, declarators_of. split; assumption.
Qed.

(** The branch that would record an alias of [this] itself is never taken:
    it is reached only for initializers that passed
    [isValidMemberExpression], whose [type] is not [ThisExpression]. *)
Lemma extract_declarator_mirror : forall r d t r' t',
  extract_declarator r d t = (Val r', t') -> thisMirror r' = thisMirror r.
Proof.
  intros r d t r' t' H. unfold extract_declarator in H.
  apply bind_val_inv in H as (id & t1 & Hid & H).
  destruct (isValidIdentifier id); simpl in H; [|inversion H; auto].
  destruct (isValidMemberExpression (prop d "init")) eqn:Em; simpl in H;
    [|inversion H; auto].
  assert (Hty : str_is (prop (prop d "init") "type") "ThisExpression" = false).
  { unfold isValidMemberExpression in Em.
    apply andb_true_iff in Em as [Em _]. apply andb_true_iff in Em as [Em _].
    apply andb_true_iff in Em as [_ Em].
    destruct (prop (prop d "init") "type"); simpl in *; try discriminate.
    apply String.eqb_eq in Em. subst s. reflexivity. }
  rewrite Hty in H.
  repeat match type of H with
         | (if ?b then _ else _) _ = _ => destruct b
         end; inversion H; auto.
Qed.

Lemma extract_never_records_this : forall functionBody t r t',
  extractVariableReplacements functionBody t = (Val r, t') ->
  thisMirror r = None.
Proof.
  intros functionBody t r t' H. unfold extractVariableReplacements in H.
  apply bind_val_inv in H as (nodes & t1 & _ & H).
  change None with (thisMirror no_replacements).
  revert t1 H. generalize no_replacements as r0.
  induction nodes as [|n nodes IH]; intros r0 t1 H; simpl in H.
  - inversion H; auto.
  - apply bind_val_inv in H as (r1 & t2 & Hn & H).
    apply IH in H. rewrite H. clear H IH.
    unfold extract_statement in Hn.
    apply bind_val_inv in Hn as (ty & t3 & _ & Hn).
    destruct (str_is ty "VariableDeclaration"); [|inversion Hn; auto].
    apply bind_val_inv in Hn as (ds & t4 & _ & Hn).
    revert r0 t4 Hn. induction ds as [|d ds IHd]; intros r0 t4 Hn; simpl in Hn.
    + inversion Hn; auto.
    + apply bind_val_inv in Hn as (r2 & t5 & Hd & Hn).
      apply IHd in Hn. rewrite Hn. eapply extract_declarator_mirror; eauto.
Qed.

(** ** The superclass *)

Section SuperClass.

Variable recast_print : value -> outcome value.

Lemma lift_val_inv : forall A (o : outcome A) t a t',
  lift o t = (Val a, t') -> o = Val a /\ t' = t.
Proof.
  intros A o t a t' H. unfold lift in H. inversion H. auto.
Qed.

Lemma get_at_val_inv : forall v i t x t',
  get_at v i t = (Val x, t') -> nullish v = false /\ x = at_index v i /\ t' = t.
Proof.
  intros v i t x t' H. unfold get_at in H.
  destruct (nullish v); [discriminate|].
  unfold ret in H. inversion H. auto.
Qed.

Lemma super_class_of_spec : forall classConstructor functionBody outer t sc t',
  super_class_of recast_print classConstructor functionBody outer t = (Val sc, t') ->
  (helper_idiom recast_print classConstructor functionBody
   /\ sc = at_index (prop outer "arguments") 0)
  \/ (~ helper_idiom recast_print classConstructor functionBody /\ sc = VNull).
Proof.
  intros cc fb outer t sc t' H. unfold super_class_of in H.
  apply bind_val_inv in H as (cid & t1 & Hcid & H).
  apply get_val_inv in Hcid as (_ & -> & ->).
  destruct (truthy (prop cc "id")) eqn:Eid; simpl in H.
  2:{ right. inversion H. split; [|reflexivity].
      intros (Hid & _). congruence. }
  destruct (helper_call_shape fb) eqn:Eshape; simpl in H.
  2:{ right. inversion H. split; [|reflexivity].
      intros (_ & Hs & _). congruence. }
  apply bind_val_inv in H as (same & t1 & Hsame & H).
  unfold same_printed in Hsame.
  apply bind_val_inv in Hsame as (pa & t2 & Hpa & Hsame).
  apply lift_val_inv in Hpa as (Hpa & ->).
  apply bind_val_inv in Hsame as (ca & t2 & Hca & Hsame).
  apply get_val_inv in Hca as (_ & -> & ->).
  apply bind_val_inv in Hsame as (pb & t2 & Hpb & Hsame).
  apply lift_val_inv in Hpb as (Hpb & ->).
  apply bind_val_inv in Hsame as (cb & t2 & Hcb & Hsame).
  apply get_val_inv in Hcb as (_ & -> & ->).
  unfold ret in Hsame. inversion Hsame; subst same t1. clear Hsame.
  destruct (strict_eq (prop pa "code") (prop pb "code")) eqn:Eeq.
  - left.
    apply bind_val_inv in H as (args & t1 & Hargs & H).
    apply get_val_inv in Hargs as (_ & -> & ->).
    apply get_at_val_inv in H as (_ & -> & _).
    split; [|reflexivity].
    split; [exact Eid|]. split; [exact Eshape|].
    exists pa, pb. auto.
  - right. inversion H. split; [|reflexivity].
    intros (_ & _ & pa' & pb' & Ha & Hb & He). congruence.
Qed.

(** C6, as amended.  For a matched candidate the extracted [superClass] is
    what stands first among the arguments of the outer call (of the call
    expression for the direct shape, of the parenthesized call inside the
    [new] expression for the wrapped one) when the constructor has a name and
    the factory's first statement is the helper call on it, and [null]
    otherwise.  So there is a superclass, in the sense of the rewriter's own
    [!superClass], exactly when the idiom is met and the outer call has a
    first argument that is truthy: under the idiom an outer call without
    arguments gives [undefined]. *)
Theorem superClass_iff_helper_idiom : forall node parent ct t context t',
  buildParsingContext recast_print node parent ct t = (Val (Some context), t') ->
  (helper_idiom recast_print (ctx_classConstructor context)
     (ctx_functionBody context) ->
   ctx_superClass context = at_index (prop (outer_call ct node) "arguments") 0)
  /\ (~ helper_idiom recast_print (ctx_classConstructor context)
         (ctx_functionBody context) ->
      ctx_superClass context = VNull)
  /\ (truthy (ctx_superClass context) = true
      <-> helper_idiom recast_print (ctx_classConstructor context)
            (ctx_functionBody context)
          /\ truthy (at_index (prop (outer_call ct node) "arguments") 0) = true).
Proof.
  intros node parent ct t context t' H.
  unfold buildParsingContext, try_catch in H.
  destruct (extract_context recast_print node parent ct t) as [[o | e | ] t1] eqn:Hx;
    [| unfold bind, emit, ret in H; simpl in H; discriminate | discriminate].
  inversion H; subst o t1. clear H.
  unfold extract_context in Hx.
  apply bind_val_inv in Hx as (id & t1 & _ & Hx).
  destruct (negb (truthy (opt_prop id "name"))); [discriminate|].
  assert (Hsc :
    (helper_idiom recast_print (ctx_classConstructor context) (ctx_functionBody context)
     /\ ctx_superClass context = at_index (prop (outer_call ct node) "arguments") 0)
    \/ (~ helper_idiom recast_print (ctx_classConstructor context)
            (ctx_functionBody context)
        /\ ctx_superClass context = VNull)).
  { destruct ct; simpl in Hx.
    - apply bind_val_inv in Hx as (c & t2 & Hb & Hx).
      unfold ret in Hx. inversion Hx; subst c. clear Hx.
      unfold buildClassContext in Hb.
      apply bind_val_inv in Hb as (init & t3 & Hi & Hb).
      apply get_val_inv in Hi as (_ & -> & _).
      apply bind_val_inv in Hb as (rawFunction & t4 & _ & Hb).
      apply bind_val_inv in Hb as (b & t5 & _ & Hb).
      apply bind_val_inv in Hb as (functionBody & t6 & _ & Hb).
      apply bind_val_inv in Hb as (protoIdentifier & t7 & _ & Hb).
      apply bind_val_inv in Hb as (classConstructor & t8 & _ & Hb).
      apply bind_val_inv in Hb as (superClass & t9 & Hs & Hb).
      unfold ret in Hb. inversion Hb; subst context. simpl.
      apply super_class_of_spec in Hs. exact Hs.
    - apply bind_val_inv in Hx as (c & t2 & Hb & Hx).
      unfold ret in Hx. inversion Hx; subst c. clear Hx.
      unfold buildNewClassContext in Hb.
      apply bind_val_inv in Hb as (init & t3 & Hi & Hb).
      apply get_val_inv in Hi as (_ & -> & _).
      apply bind_val_inv in Hb as (callee & t4 & Hc & Hb).
      apply get_val_inv in Hc as (_ & -> & _).
      apply bind_val_inv in Hb as (expression & t5 & He & Hb).
      apply get_val_inv in He as (_ & -> & _).
      apply bind_val_inv in Hb as (rawFunction & t6 & _ & Hb).
      apply bind_val_inv in Hb as (b & t7 & _ & Hb).
      apply bind_val_inv in Hb as (functionBody & t8 & _ & Hb).
      apply bind_val_inv in Hb as (protoIdentifier & t9 & _ & Hb).
      apply bind_val_inv in Hb as (classConstructor & t10 & _ & Hb).
      apply bind_val_inv in Hb as (superClass & t11 & Hs & Hb).
      unfold ret in Hb. inversion Hb; subst context. simpl.
      apply super_class_of_spec in Hs. exact Hs. }
  destruct Hsc as [(Hidiom & Heq) | (Hnot & Heq)]; rewrite Heq.
  - split; [reflexivity|]. split; [intros Hn; exfalso; auto|].
    split; [intros Ht; split; assumption | intros (_ & Ht); exact Ht].
  - split; [intros Hi; exfalso; auto|]. split; [reflexivity|].
    split; [discriminate | intros (Hi & _); exfalso; auto].
Qed.

(** Every context comes with an empty object as its base visitor. *)
Lemma context_walkBase_is_empty_object : forall node parent ct t context t',
  buildParsingContext recast_print node parent ct t = (Val (Some context), t') ->
  ctx_walkBase context = VObj [].
Proof.
  intros node parent ct t context t' H.
  unfold buildParsingContext, try_catch in H.
  destruct (extract_context recast_print node parent ct t) as [[o | e | ] t1] eqn:Hx;
    [| unfold bind, emit, ret in H; simpl in H; discriminate | discriminate].
  inversion H; subst o t1. clear H.
  unfold extract_context in Hx.
  apply bind_val_inv in Hx as (id & t1 & _ & Hx).
  destruct (negb (truthy (opt_prop id "name"))); [discriminate|].
  destruct ct; simpl in Hx;
    apply bind_val_inv in Hx as (c & t2 & Hb & Hx);
    unfold ret in Hx; inversion Hx; subst c; clear Hx;
    unfold buildClassContext, buildNewClassContext in Hb;
    repeat (apply bind_val_inv in Hb as (? & ? & _ & Hb));
    unfold ret in Hb; inversion Hb; reflexivity.
Qed.

End SuperClass.

(** ** The callbacks and their receiver *)

Lemma memberExpressionVisitor_needs_class : forall r this node t,
  this <> ThisClassParser ->
  memberExpressionVisitor r this node t = (Exn TypeError, t).
Proof.
  intros r [ | | ] node t H; [congruence | reflexivity | reflexivity].
Qed.

Lemma functionExpressionVisitor_needs_class : forall walk_ancestor this node t,
  this <> ThisClassParser ->
  functionExpressionVisitor walk_ancestor this node t = (Exn TypeError, t).
Proof.
  intros w [ | | ] node t H; [congruence | reflexivity | reflexivity].
Qed.

(** Were the callback run with the class as its receiver, a member access
    [this.constructor] would have its [type] set to [ThisExpression],
    whatever aliases were recorded. *)
Lemma memberExpressionVisitor_on_class : forall r ps t,
  isValidMemberExpression (VObj ps) = true ->
  str_is (prop (lookup ps "object") "type") "ThisExpression" = true ->
  isValidIdentifier (lookup ps "property") = true ->
  str_is (prop (lookup ps "property") "name") "constructor" = true ->
  memberExpressionVisitor r ThisClassParser (VObj ps) t
  = (Val (VObj (set_prop ps "type" (VStr "ThisExpression"))), t).
Proof.
  intros r ps t Hm Ho Hp Hn.
  assert (Hid : isValidIdentifier (lookup ps "object") = false).
  { unfold isValidIdentifier.
    destruct (prop (lookup ps "object") "type") as [ | | b | z | s | l | qs];
      simpl in Ho; try discriminate.
    apply String.eqb_eq in Ho. subst s. simpl.
    rewrite andb_false_r. reflexivity. }
  unfold memberExpressionVisitor, bind, static_method, ret. rewrite Hm. simpl.
  rewrite Hid, andb_false_r. simpl. rewrite Hid. simpl.
  rewrite Ho, Hp, Hn. reflexivity.
Qed.

(** ** The claims on concrete trees *)

Import Trees.

(** C1, against the claim as stated.  For [var X = (function () { a; b;
    var p; })();] a context is built, and [parse] then raises a [TypeError]
    when it reads the body of the statement it took for the constructor. *)
Lemma parse_raises_once_context_is_built :
  (exists c, fst (buildParsingContext Recast.print oddDeclarator oddDeclaration
                    Class []) = Val (Some c))
  /\ run_parse oddDeclarator oddDeclaration someBase [] = (Exn TypeError, []).
Proof.
  split; [eexists|]; vm_compute; reflexivity.
Qed.

(** C2.  For [function () { var self = this; self.y; }] no alias is
    recorded and the declaration stays; the walk over the body then raises in
    the callback, both here and for [function () { var p = this.props; p.z; }],
    where the alias is recorded.  Even a walker that runs the callback on the
    class gives the first body back as it was. *)
Theorem self_alias_is_not_collapsed :
  fst (extractVariableReplacements (statements_of selfAlias) []) = Val no_replacements
  /\ fst (cleanupVariableDeclarations (statements_of selfAlias) no_replacements [])
     = Val (statements_of selfAlias)
  /\ run_parseFunctionBody selfAlias empty_context []
     = (Exn TypeError, [EWalk VUndefined])
  /\ fst (intended_parseFunctionBody selfAlias empty_context [])
     = Val (statements_of selfAlias)
  /\ fst (extractVariableReplacements (statements_of propsAlias) [])
     = Val (mkReplacements (Some "p") None None)
  /\ run_parseFunctionBody propsAlias empty_context []
     = (Exn TypeError, [EWalk VUndefined]).
Proof.
  repeat split; vm_compute; reflexivity.
Qed.

(** C3.  On the [Bar] declaration the one walk that is started gets the
    empty object as its base visitor, not the configuration [parse] was
    given. *)
Theorem walkBase_is_not_forwarded :
  snd (run_parse barDeclarator barDeclaration someBase []) = [EWalk (VObj [])]
  /\ someBase <> VObj [].
Proof.
  split; [vm_compute; reflexivity | discriminate].
Qed.

(** C4, against the claim as stated.  In [function () { var a = this.props;
    var b = this.props; a.x; b.y; }] the first declarator that aliases
    [this.props] declares [a], and the name recorded is [b]. *)
Lemma second_alias_replaces_first :
  first_alias "props" (statements_of twoAliases) = Some "a"
  /\ fst (extractVariableReplacements (statements_of twoAliases) [])
     = Val (mkReplacements (Some "b") None None).
Proof.
  split; vm_compute; reflexivity.
Qed.

(** C5.  The constructor of [Bar] has the regular super-call shape, and no
    rewritten constructor comes out: [parse] raises in the first walk, which
    gets the empty object as base visitor; with the default base visitor the
    renaming walk goes through and the walk for nested functions raises in
    its callback. *)
Theorem regular_super_call_is_not_rewritten :
  fst (isRegularSuperCallPattern (statements_of barConstructor)
         (at_index (statements_of barConstructor) 2) (ident "Foo") [])
  = Val true
  /\ run_parse barDeclarator barDeclaration someBase []
     = (Exn TypeError, [EWalk (VObj [])])
  /\ run_parseConstructor barConstructorExpression barContextDefaultBase []
     = (Exn TypeError, [EWalk VUndefined; EWalk VUndefined]).
Proof.
  repeat split; vm_compute; reflexivity.
Qed.

(** C7.  For a class whose constructor is [function Baz() {
    this.constructor; }] [parse] raises in the walk that de-aliases the
    constructor, which gets the empty object as base visitor.  With the
    default base visitor the walk over [function () { this.constructor; }]
    reaches the member access and raises in the callback, which is run on the
    visitors object; so the callback does for every node and every record of
    aliases. *)
Theorem this_constructor_is_not_collapsed :
  run_parse bazDeclarator bazDeclaration someBase []
  = (Exn TypeError, [EWalk (VObj [])])
  /\ run_parseFunctionBody usesConstructor empty_context []
     = (Exn TypeError, [EWalk VUndefined])
  /\ forall r node t,
       memberExpressionVisitor r ThisVisitors node t = (Exn TypeError, t).
Proof.
  split; [vm_compute; reflexivity|].
  split; [vm_compute; reflexivity|].
  intros r node t. apply memberExpressionVisitor_needs_class. discriminate.
Qed.

(** ** What the walker the callbacks are written for would give

    With the callbacks run on the class and any base accepted, the aliases of
    [this.props] are collapsed, [this.constructor] becomes [this], and the
    constructor of [Bar] comes out as [super(a, b);]. *)

Lemma props_alias_with_intended_walker :
  fst (intended_parseFunctionBody propsAlias empty_context [])
  = Val (VArr [expr_stmt
                 (node_of "MemberExpression"
                    [("object", this_props_member);
                     ("property", ident "z");
                     ("computed", VBool false)])]).
Proof.
  vm_compute. reflexivity.
Qed.

Lemma this_constructor_with_intended_walker :
  exists ps,
    fst (intended_parseFunctionBody usesConstructor empty_context [])
    = Val (VArr [expr_stmt (VObj ps)])
    /\ lookup ps "type" = VStr "ThisExpression".
Proof.
  eexists. split; vm_compute; reflexivity.
Qed.

Lemma regular_super_call_with_intended_walker :
  exists classDeclaration,
    fst (intended_parse barDeclarator barDeclaration someBase [])
    = Val classDeclaration
    /\ prop classDeclaration "type" = VStr "ClassDeclaration"
    /\ prop classDeclaration "superClass" = ident "Foo"
    /\ constructor_statements classDeclaration
       = VArr [super_call [ident "a"; ident "b"]].
Proof.
  eexists. repeat split; vm_compute; reflexivity.
Qed.

(** C6, against the claim as stated.  [var Bar = (function (_Foo) {
    _inherits(Bar, _Foo); function Bar(a, b) { ... } ... })();] has the
    helper call on the constructor's name, and the outer call has no
    argument.  The [superClass] extracted is [undefined], not the first
    argument of anything, and it is no superclass to the rewriter: the
    constructor's [_Foo.call(this, a, b) || this] is not taken for a super
    call. *)
Lemma superClass_undefined_under_helper_idiom :
  exists context,
    buildParsingContext Recast.print barNoArgument (var_decl [barNoArgument])
      Class []
    = (Val (Some context), [])
    /\ helper_idiom Recast.print (ctx_classConstructor context)
         (ctx_functionBody context)
    /\ prop (outer_call Class barNoArgument) "arguments" = VArr []
    /\ ctx_superClass context = VUndefined
    /\ truthy (ctx_superClass context) = false
    /\ isRegularSuperCallPattern (statements_of (ctx_classConstructor context))
         (at_index (statements_of (ctx_classConstructor context)) 2)
         (ctx_superClass context) []
       = (Val false, [])
    /\ isRegularSuperCallPattern (statements_of (ctx_classConstructor context))
         (at_index (statements_of (ctx_classConstructor context)) 2)
         (ident "Foo") []
       = (Val true, []).
Proof.
  eexists. split; [vm_compute; reflexivity|].
  split.
  { split; [reflexivity|]. split; [reflexivity|].
    do 2 eexists. repeat split; vm_compute; reflexivity. }
  repeat split; vm_compute; reflexivity.
Qed.

(** ** Instances of the theorems *)

Lemma parse_no_match_returns_parent_witness :
  no_match Recast.print fooDeclarator fooDeclaration someBase []
  /\ (exists t', run_parse fooDeclarator fooDeclaration someBase []
                 = (Val fooDeclaration, t')
                 /\ (t' = [] \/ t' = ([] ++ [EWarn])%list)).
Proof.
  assert (H : no_match Recast.print fooDeclarator fooDeclaration someBase []).
  { right. right. right. right. exists Class.
    split; [vm_compute; reflexivity|].
    right. exists TypeError. vm_compute. reflexivity. }
  split; [exact H|].
  exact (proj1 (parse_no_match_returns_parent Acorn.ancestor Recast.print
           (Heap.element 0)
                  fooDeclarator fooDeclaration someBase [] H)).
Defined.

Lemma rewrite_is_idempotent_witness :
  (run_parse_at 1 newTagDeclarator newTagDeclaration someBase []
   = (Val newTagOutput, [])
   /\ run_parse_at 2 (last_declarator newTagOutput) newTagOutput someBase []
      = (Val newTagOutput, []))
  /\ (run_parse tagDeclarator tagDeclaration someBase [] = (Val tagOutput, [])
      /\ run_parse tagDeclarator tagOutput someBase [] = (Val tagOutput, [])).
Proof.
  assert (Hnew : run_parse_at 1 newTagDeclarator newTagDeclaration someBase []
                 = (Val newTagOutput, [])) by (vm_compute; reflexivity).
  assert (Htag : run_parse tagDeclarator tagDeclaration someBase []
                 = (Val tagOutput, [])) by (vm_compute; reflexivity).
  split; split; [exact Hnew | | exact Htag | ].
  - apply (rewrite_is_idempotent Acorn.ancestor Recast.print (Heap.element 1)
             newTagDeclarator newTagDeclaration someBase NewClass tagContext
             [] [] newTagOutput []);
      [reflexivity | vm_compute; reflexivity | vm_compute; reflexivity | exact Hnew].
  - apply (rewrite_is_idempotent Acorn.ancestor Recast.print (Heap.element 0)
             tagDeclarator tagDeclaration someBase Class tagContext
             [] [] tagOutput [] eq_refl);
      [vm_compute; reflexivity | vm_compute; reflexivity | exact Htag].
Defined.


Lemma parseNewClass_of_no_element_witness :
  exists classBody,
    prop copyTagOutput "declarations"
    = VArr ([newTagDeclarator; lastDeclarator; newTagDeclarator]
            ++ [rewritten_declarator newTagDeclarator
                  (prop newTagDeclarator "init") tagContext classBody]).
Proof.
  apply (parseNewClass_of_no_element Acorn.ancestor Heap.no_element
           newTagDeclarator twinTagDeclaration tagContext [] copyTagOutput []).
  - vm_compute. reflexivity.
  - reflexivity.
  - reflexivity.
Defined.

Lemma extract_last_alias_wins_witness :
  thisProps (mkReplacements (Some "b") None None)
  = last_alias "props" (statements_of twoAliases)
  /\ thisConstructor (mkReplacements (Some "b") None None)
     = last_alias "constructor" (statements_of twoAliases).
Proof.
  apply (extract_last_alias_wins (statements_of twoAliases) []
           (mkReplacements (Some "b") None None) []).
  vm_compute. reflexivity.
Defined.

Lemma superClass_iff_helper_idiom_witness :
  (helper_idiom Recast.print (ctx_classConstructor barContext)
     (ctx_functionBody barContext) ->
   ctx_superClass barContext
   = at_index (prop (outer_call Class barDeclarator) "arguments") 0)
  /\ (~ helper_idiom Recast.print (ctx_classConstructor barContext)
         (ctx_functionBody barContext) ->
      ctx_superClass barContext = VNull)
  /\ (truthy (ctx_superClass barContext) = true
      <-> helper_idiom Recast.print (ctx_classConstructor barContext)
            (ctx_functionBody barContext)
          /\ truthy (at_index (prop (outer_call Class barDeclarator) "arguments") 0)
             = true).
Proof.
  apply (superClass_iff_helper_idiom Recast.print barDeclarator barDeclaration
           Class [] barContext []).
  vm_compute. reflexivity.
Defined.

(** * More properties of the rewriter *)

Import Behaviour MoreTrees.

(** ** Reading the candidate *)

Lemma prop_not_nullish : forall v k, nullish (prop v k) = false -> nullish v = false.
Proof.
  intros [ | | b | z | s | l | ps] k H; simpl in *; congruence.
Qed.

Lemma at_index_not_nullish : forall v i,
  nullish (at_index v i) = false -> nullish v = false.
Proof.
  intros [ | | b | z | s | l | ps] i H; simpl in *; congruence.
Qed.

Lemma get_ok : forall v k t, nullish v = false -> get v k t = (Val (prop v k), t).
Proof. intros v k t H. unfold get. rewrite H. reflexivity. Qed.

Lemma get_at_ok : forall v i t,
  nullish v = false -> get_at v i t = (Val (at_index v i), t).
Proof. intros v i t H. unfold get_at. rewrite H. reflexivity. Qed.

Lemma get_at_nullish : forall v i t,
  nullish v = true -> get_at v i t = (Exn TypeError, t).
Proof. intros v i t H. unfold get_at. rewrite H. reflexivity. Qed.

Lemma get_nullish : forall v k t,
  nullish v = true -> get v k t = (Exn TypeError, t).
Proof. intros v k t H. unfold get. rewrite H. reflexivity. Qed.

Lemma bind_ok : forall A B (c : M A) (k : A -> M B) t a t1,
  c t = (Val a, t1) -> bind c k t = k a t1.
Proof. intros A B c k t a t1 H. unfold bind. rewrite H. reflexivity. Qed.

Lemma bind_exn : forall A B (c : M A) (k : A -> M B) t e t1,
  c t = (Exn e, t1) -> bind c k t = (Exn e, t1).
Proof. intros A B c k t e t1 H. unfold bind. rewrite H. reflexivity. Qed.

Section Candidates.

Variable walk_ancestor : value -> visitors -> value -> M value.
Variable recast_print : value -> outcome value.
Variable indexOf : value -> list value -> Z.

(** What [parse] goes on with once a shape is recognized. *)
Lemma parse_after_classification : forall node parent walkBase t ct,
  truthy walkBase = true ->
  fst (findClassType node parent t) = Val (Some ct) ->
  parse walk_ancestor recast_print indexOf node parent walkBase t
  = bind (buildParsingContext recast_print node parent ct)
      (fun context =>
         match context with
         | None => ret parent
         | Some c => parseClassByType walk_ancestor indexOf ct node parent c
         end) t.
Proof.
  intros node parent walkBase t ct Hw Hf.
  pose proof (findClassType_trace node parent t) as Ht.
  destruct (findClassType_some_inv _ _ _ _ Hf) as (ns & ps & qs & -> & -> & _).
  unfold parse. rewrite Hw. simpl.
  unfold bind at 1.
  destruct (findClassType (VObj ns) (VObj ps) t) as [[o | e | ] t0];
    simpl in Hf, Ht; try discriminate.
  inversion Hf; subst o t0. reflexivity.
Qed.

(** The reads both context builders start with. *)
Lemma factory_reads : forall ct node parent name t,
  nullish (factory_statements ct node) = false ->
  (match ct with
   | Class => buildClassContext recast_print node parent name
   | NewClass => buildNewClassContext recast_print node parent name
   end) t
  = bind (proto_identifier (factory_statements ct node))
      (fun protoIdentifier =>
         bind (get_at (factory_statements ct node) 1)
           (fun classConstructor =>
              bind (super_class_of recast_print classConstructor
                      (factory_statements ct node) (outer_call ct node))
                (fun superClass =>
                   ret (mkContext name superClass protoIdentifier classConstructor
                          (factory_statements ct node) (VObj []))))) t.
Proof.
  intros ct node parent name t H.
  unfold factory_statements, statements_of, factory_function in *.
  pose proof (prop_not_nullish _ _ H) as H1.
  pose proof (prop_not_nullish _ _ H1) as H2.
  pose proof (prop_not_nullish _ _ H2) as H3.
  destruct ct; simpl in *.
  - pose proof (prop_not_nullish _ _ H3) as H4.
    unfold buildClassContext.
    rewrite (bind_ok _ _ _ _ _ _ _ (get_ok _ "init" t H4)).
    rewrite (bind_ok _ _ _ _ _ _ _ (get_ok _ "callee" t H3)).
    rewrite (bind_ok _ _ _ _ _ _ _ (get_ok _ "body" t H2)).
    rewrite (bind_ok _ _ _ _ _ _ _ (get_ok _ "body" t H1)).
    reflexivity.
  - pose proof (prop_not_nullish _ _ H3) as H4.
    pose proof (prop_not_nullish _ _ H4) as H5.
    pose proof (prop_not_nullish _ _ H5) as H6.
    unfold buildNewClassContext.
    rewrite (bind_ok _ _ _ _ _ _ _ (get_ok _ "init" t H6)).
    rewrite (bind_ok _ _ _ _ _ _ _ (get_ok _ "callee" t H5)).
    rewrite (bind_ok _ _ _ _ _ _ _ (get_ok _ "expression" t H4)).
    rewrite (bind_ok _ _ _ _ _ _ _ (get_ok _ "callee" t H3)).
    rewrite (bind_ok _ _ _ _ _ _ _ (get_ok _ "body" t H2)).
    rewrite (bind_ok _ _ _ _ _ _ _ (get_ok _ "body" t H1)).
    reflexivity.
Qed.

Lemma extract_context_named : forall ct node parent t,
  nullish node = false ->
  truthy (candidate_name node) = true ->
  extract_context recast_print node parent ct t
  = bind (match ct with
          | Class => buildClassContext recast_print node parent (candidate_name node)
          | NewClass => buildNewClassContext recast_print node parent (candidate_name node)
          end) (fun c => ret (Some c)) t.
Proof.
  intros ct node parent t Hn Hname. unfold extract_context.
  rewrite (bind_ok _ _ _ _ _ _ _ (get_ok _ "id" t Hn)).
  unfold candidate_name in Hname. rewrite Hname. simpl.
  destruct ct; reflexivity.
Qed.

(** When the [try] block raises, [parse] warns and gives [parent] back. *)
Lemma parse_when_extraction_raises : forall node parent walkBase t ct e,
  truthy walkBase = true ->
  fst (findClassType node parent t) = Val (Some ct) ->
  extract_context recast_print node parent ct t = (Exn e, t) ->
  parse walk_ancestor recast_print indexOf node parent walkBase t
  = (Val parent, (t ++ [EWarn])%list).
Proof.
  intros node parent walkBase t ct e Hw Hf Hx.
  rewrite (parse_after_classification _ _ _ _ _ Hw Hf).
  unfold bind, buildParsingContext, try_catch. rewrite Hx. reflexivity.
Qed.

(** X1. A declarator that binds no name (a destructuring pattern, say) is
    left alone: [parse] gives [parent] back, starts no walk and prints no
    warning. *)
Theorem unnamed_candidate_is_left_alone : forall node parent walkBase t ct,
  truthy walkBase = true ->
  fst (findClassType node parent t) = Val (Some ct) ->
  truthy (candidate_name node) = false ->
  parse walk_ancestor recast_print indexOf node parent walkBase t = (Val parent, t).
Proof.
  intros node parent walkBase t ct Hw Hf Hname.
  rewrite (parse_after_classification _ _ _ _ _ Hw Hf).
  destruct (findClassType_some_inv _ _ _ _ Hf) as (ns & ps & qs & -> & -> & _).
  unfold bind, buildParsingContext, try_catch, extract_context.
  unfold bind, get. simpl.
  unfold candidate_name in Hname. simpl in Hname. rewrite Hname. reflexivity.
Qed.

(** X2. The prototype alias is read from the third statement of the factory
    without looking at its kind: when that statement is there and has no
    [declarations] (a method assignment, the [return]), reading it raises, and
    [parse] warns once and gives [parent] back. *)
Theorem third_statement_must_declare : forall node parent walkBase t ct,
  truthy walkBase = true ->
  fst (findClassType node parent t) = Val (Some ct) ->
  truthy (candidate_name node) = true ->
  nullish (at_index (factory_statements ct node) 2) = false ->
  nullish (prop (at_index (factory_statements ct node) 2) "declarations") = true ->
  parse walk_ancestor recast_print indexOf node parent walkBase t
  = (Val parent, (t ++ [EWarn])%list).
Proof.
  intros node parent walkBase t ct Hw Hf Hname H2 Hd.
  apply parse_when_extraction_raises with (ct := ct) (e := TypeError); auto.
  destruct (findClassType_some_inv _ _ _ _ Hf) as (ns & ps & qs & -> & -> & _).
  rewrite extract_context_named by auto.
  pose proof (at_index_not_nullish _ _ H2) as Hfb.
  apply bind_exn.
  rewrite (factory_reads ct (VObj ns) (VObj ps) _ t Hfb).
  apply bind_exn. unfold proto_identifier.
  rewrite (bind_ok _ _ _ _ _ _ _ (get_at_ok _ 2 t Hfb)).
  rewrite H2. apply bind_exn. apply get_at_nullish. exact Hd.
Qed.

(** X3. The constructor is whatever the second statement of the factory is:
    a factory with fewer than two statements has none, reading its [id]
    raises, and [parse] warns once and gives [parent] back. *)
Theorem short_factory_is_left_alone : forall node parent walkBase t ct stmts,
  truthy walkBase = true ->
  fst (findClassType node parent t) = Val (Some ct) ->
  truthy (candidate_name node) = true ->
  factory_statements ct node = VArr stmts ->
  (length stmts < 2)%nat ->
  parse walk_ancestor recast_print indexOf node parent walkBase t
  = (Val parent, (t ++ [EWarn])%list).
Proof.
  intros node parent walkBase t ct stmts Hw Hf Hname Hfb Hlen.
  apply parse_when_extraction_raises with (ct := ct) (e := TypeError); auto.
  destruct (findClassType_some_inv _ _ _ _ Hf) as (ns & ps & qs & -> & -> & _).
  rewrite extract_context_named by auto.
  apply bind_exn.
  assert (Hnn : nullish (factory_statements ct (VObj ns)) = false)
    by (rewrite Hfb; reflexivity).
  rewrite (factory_reads ct (VObj ns) (VObj ps) _ t Hnn). rewrite Hfb.
  destruct stmts as [|s0 [|s1 stmts]]; simpl in Hlen; try lia; reflexivity.
Qed.

(** X4. The context of a matched candidate is read by position: the name is
    the declarator's, the statements are the factory's, the constructor is the
    second of them whatever its kind, the prototype alias is the first name
    the third one declares, and the base visitor is a new empty object.
    Building it starts no walk and prints nothing. *)
Theorem context_is_read_by_position : forall node parent ct t context t',
  buildParsingContext recast_print node parent ct t = (Val (Some context), t') ->
  t' = t
  /\ ctx_name context = candidate_name node
  /\ truthy (ctx_name context) = true
  /\ ctx_functionBody context = factory_statements ct node
  /\ ctx_classConstructor context = at_index (factory_statements ct node) 1
  /\ nullish (ctx_classConstructor context) = false
  /\ ctx_protoIdentifier context = third_statement_name (factory_statements ct node)
  /\ ctx_walkBase context = VObj [].
Proof.
  intros node parent ct t context t' H.
  unfold buildParsingContext, try_catch in H.
  pose proof (extract_context_silent recast_print node parent ct t) as Hs.
  destruct (extract_context recast_print node parent ct t) as [[o | e | ] t1] eqn:Hx;
    [| unfold bind, emit, ret in H; simpl in H; discriminate | discriminate].
  simpl in Hs. inversion H; subst o t1 t'. clear H.
  split; [reflexivity|].
  unfold extract_context in Hx.
  apply bind_val_inv in Hx as (id & t1 & Hid & Hx).
  apply get_val_inv in Hid as (Hn & -> & ->).
  fold (candidate_name node) in Hx.
  destruct (truthy (candidate_name node)) eqn:Hname; simpl in Hx; [|discriminate].
  assert (Hb : exists t2,
    (match ct with
     | Class => buildClassContext recast_print node parent (candidate_name node)
     | NewClass => buildNewClassContext recast_print node parent (candidate_name node)
     end) t = (Val context, t2)).
  { destruct ct; apply bind_val_inv in Hx as (c & t2 & Hb & Hx);
      unfold ret in Hx; inversion Hx; subst c; eauto. }
  clear Hx. destruct Hb as (t2 & Hb).
  assert (Hfb : nullish (factory_statements ct node) = false).
  { unfold factory_statements, statements_of, factory_function.
    destruct ct; simpl.
    - unfold buildClassContext in Hb.
      apply bind_val_inv in Hb as (init & t3 & Hi & Hb).
      apply get_val_inv in Hi as (_ & -> & ->).
      apply bind_val_inv in Hb as (raw & t3 & Hi & Hb).
      apply get_val_inv in Hi as (_ & -> & ->).
      apply bind_val_inv in Hb as (b & t3 & Hi & Hb).
      apply get_val_inv in Hi as (_ & -> & ->).
      apply bind_val_inv in Hb as (fb & t3 & Hi & Hb).
      apply get_val_inv in Hi as (_ & -> & ->).
      apply bind_val_inv in Hb as (p & t3 & Hi & Hb).
      unfold proto_identifier in Hi.
      apply bind_val_inv in Hi as (s2 & t4 & Hi & _).
      apply get_at_val_inv in Hi as (Hi & _). exact Hi.
    - unfold buildNewClassContext in Hb.
      apply bind_val_inv in Hb as (init & t3 & Hi & Hb).
      apply get_val_inv in Hi as (_ & -> & ->).
      apply bind_val_inv in Hb as (callee & t3 & Hi & Hb).
      apply get_val_inv in Hi as (_ & -> & ->).
      apply bind_val_inv in Hb as (expression & t3 & Hi & Hb).
      apply get_val_inv in Hi as (_ & -> & ->).
      apply bind_val_inv in Hb as (raw & t3 & Hi & Hb).
      apply get_val_inv in Hi as (_ & -> & ->).
      apply bind_val_inv in Hb as (b & t3 & Hi & Hb).
      apply get_val_inv in Hi as (_ & -> & ->).
      apply bind_val_inv in Hb as (fb & t3 & Hi & Hb).
      apply get_val_inv in Hi as (_ & -> & ->).
      apply bind_val_inv in Hb as (p & t3 & Hi & Hb).
      unfold proto_identifier in Hi.
      apply bind_val_inv in Hi as (s2 & t4 & Hi & _).
      apply get_at_val_inv in Hi as (Hi & _). exact Hi. }
  rewrite (factory_reads ct node parent _ t Hfb) in Hb.
  apply bind_val_inv in Hb as (p & t3 & Hp & Hb).
  apply bind_val_inv in Hb as (cc & t4 & Hcc & Hb).
  apply get_at_val_inv in Hcc as (_ & -> & ->).
  apply bind_val_inv in Hb as (sc & t4 & Hsc & Hb).
  unfold ret in Hb. inversion Hb; subst context. simpl.
  assert (Hccn : nullish (at_index (factory_statements ct node) 1) = false).
  { unfold super_class_of in Hsc.
    apply bind_val_inv in Hsc as (cid & t5 & Hcid & _).
    apply get_val_inv in Hcid as (Hcid & _). exact Hcid. }
  assert (Hproto : p = third_statement_name (factory_statements ct node)).
  { unfold proto_identifier in Hp. unfold third_statement_name.
    apply bind_val_inv in Hp as (s2 & t5 & Hs2 & Hp).
    apply get_at_val_inv in Hs2 as (_ & -> & ->).
    destruct (nullish (at_index (factory_statements ct node) 2)).
    - unfold ret in Hp. inversion Hp. reflexivity.
    - apply bind_val_inv in Hp as (d0 & t5 & Hd0 & Hp).
      apply get_at_val_inv in Hd0 as (_ & -> & ->).
      unfold ret in Hp. inversion Hp. reflexivity. }
  repeat split; auto.
Qed.

End Candidates.

Lemma unnamed_candidate_is_left_alone_witness :
  run_parse patternDeclarator patternDeclaration someBase []
  = (Val patternDeclaration, []).
Proof.
  apply (unnamed_candidate_is_left_alone Acorn.ancestor Recast.print
           (Heap.element 0)
           patternDeclarator patternDeclaration someBase [] Class);
    reflexivity.
Defined.

Lemma third_statement_must_declare_witness :
  run_parse fooDeclarator fooDeclaration someBase []
  = (Val fooDeclaration, [EWarn]).
Proof.
  apply (third_statement_must_declare Acorn.ancestor Recast.print
           (Heap.element 0)
           fooDeclarator fooDeclaration someBase [] Class);
    reflexivity.
Defined.

Lemma short_factory_is_left_alone_witness :
  run_parse oneDeclarator oneDeclaration someBase []
  = (Val oneDeclaration, [EWarn]).
Proof.
  apply (short_factory_is_left_alone Acorn.ancestor Recast.print
           (Heap.element 0)
           oneDeclarator oneDeclaration someBase [] Class
           [ret_stmt (literal 1)]);
    [reflexivity | reflexivity | reflexivity | reflexivity | simpl; lia].
Defined.

Lemma context_is_read_by_position_witness :
  ctx_name barContext = candidate_name barDeclarator
  /\ ctx_classConstructor barContext
     = at_index (factory_statements Class barDeclarator) 1
  /\ ctx_protoIdentifier barContext
     = third_statement_name (factory_statements Class barDeclarator).
Proof.
  destruct (context_is_read_by_position Recast.print barDeclarator barDeclaration
              Class [] barContext [])
    as (_ & H1 & _ & _ & H2 & _ & H3 & _).
  - vm_compute. reflexivity.
  - auto.
Defined.

(** ** Removing the alias declarations *)

Lemma keep_declarator_val : forall r d t b t',
  keep_declarator r d t = (Val b, t') ->
  t' = t /\ nullish d = false /\ b = negb (carries_alias r d).
Proof.
  intros r d t b t' H. unfold keep_declarator in H.
  apply bind_val_inv in H as (id & t1 & Hid & H).
  apply get_val_inv in Hid as (Hn & -> & ->).
  unfold carries_alias.
  destruct (isValidIdentifier (prop d "id")); simpl in H |- *;
    unfold ret in H; inversion H; auto.
Qed.

Lemma filterM_keep_val : forall r ds t l t',
  filterM (keep_declarator r) ds t = (Val l, t') ->
  t' = t
  /\ l = filter (fun d => negb (carries_alias r d)) ds
  /\ Forall (fun d => nullish d = false) ds.
Proof.
  induction ds as [|d ds IH]; intros t l t' H; simpl in H.
  - unfold ret in H. inversion H. auto.
  - apply bind_val_inv in H as (b & t1 & Hb & H).
    apply keep_declarator_val in Hb as (-> & Hn & ->).
    apply bind_val_inv in H as (ys & t1 & Hys & H).
    apply IH in Hys as (-> & -> & Hall).
    unfold ret in H. inversion H. repeat split; auto.
Qed.

Lemma filter_keep_clean : forall r ds,
  Forall (fun d => nullish d = false) ds ->
  Forall (fun d => nullish d = false /\ carries_alias r d = false)
    (filter (fun d => negb (carries_alias r d)) ds).
Proof.
  intros r ds H. induction H as [|d ds Hd Hds IH]; simpl; [constructor|].
  destruct (carries_alias r d) eqn:E; simpl; [exact IH|].
  constructor; auto.
Qed.

Lemma cleanup_statement_val : forall r node t s t',
  cleanup_statement r node t = (Val s, t') ->
  t' = t /\ (truthy s = true -> clean_statement r s).
Proof.
  intros r node t s t' H. unfold cleanup_statement in H.
  apply bind_val_inv in H as (ty & t1 & Hty & H).
  apply get_val_inv in Hty as (Hn & -> & ->).
  destruct (str_is (prop node "type") "VariableDeclaration") eqn:Ety.
  - apply bind_val_inv in H as (ds & t1 & Hds & H).
    apply as_array_val_inv in Hds as (Hds & ->).
    apply bind_val_inv in H as (l & t1 & Hl & H).
    apply filterM_keep_val in Hl as (-> & -> & Hall).
    unfold ret in H. inversion H; subst s t'. clear H.
    split; [reflexivity|]. intros Htr.
    assert (Hobj : exists ps, node = VObj ps).
    { apply typed_is_object with (s := "VariableDeclaration").
      unfold opt_prop. rewrite Hn. exact Ety. }
    destruct Hobj as [ps ->].
    pose proof (filter_keep_clean r ds Hall) as Hclean.
    destruct (filter (fun d => negb (carries_alias r d)) ds) as [|d l] eqn:El;
      [discriminate|].
    split; [reflexivity|]. intros _.
    exists (d :: l). unfold spread_with, set_props. simpl.
    rewrite lookup_set_prop_same. repeat split; [discriminate | exact Hclean].
  - unfold ret in H. inversion H; subst s t'.
    split; [reflexivity|]. intros Htr. split; [exact Htr|].
    intros Hvd. congruence.
Qed.

Lemma mapM_cleanup_val : forall r nodes t mapped t',
  mapM (cleanup_statement r) nodes t = (Val mapped, t') ->
  t' = t /\ Forall (clean_statement r) (filter truthy mapped).
Proof.
  induction nodes as [|n nodes IH]; intros t mapped t' H; simpl in H.
  - unfold ret in H. inversion H. split; [reflexivity | constructor].
  - apply bind_val_inv in H as (s & t1 & Hs & H).
    apply cleanup_statement_val in Hs as (-> & Hclean).
    apply bind_val_inv in H as (ys & t1 & Hys & H).
    apply IH in Hys as (-> & Hall).
    unfold ret in H. inversion H; subst mapped t'.
    split; [reflexivity|]. simpl.
    destruct (truthy s) eqn:Etr; [constructor; auto | exact Hall].
Qed.

Lemma cleanup_leaves_no_alias_declarator_aux : forall functionBody r t out t',
  cleanupVariableDeclarations functionBody r t = (Val out, t') ->
  exists stmts, out = VArr stmts /\ Forall (clean_statement r) stmts.
Proof.
  intros functionBody r t out t' H. unfold cleanupVariableDeclarations in H.
  apply bind_val_inv in H as (nodes & t1 & Hn & H).
  apply bind_val_inv in H as (mapped & t2 & Hm & H).
  apply mapM_cleanup_val in Hm as (_ & Hall).
  unfold ret in H. inversion H.
  eexists. split; [reflexivity | exact Hall].
Qed.

(** X5. What the clean-up returns is an array of truthy statements in which
    every variable declaration still has declarators and none of them
    declares a recorded alias: a declarator goes by the name it declares,
    whatever it is initialised with.  The clean-up starts no walk. *)
Theorem cleanup_leaves_no_alias_declarator : forall functionBody r t out t',
  cleanupVariableDeclarations functionBody r t = (Val out, t') ->
  t' = t
  /\ exists stmts, out = VArr stmts /\ Forall (clean_statement r) stmts.
Proof.
  intros functionBody r t out t' H. unfold cleanupVariableDeclarations in H.
  apply bind_val_inv in H as (nodes & t1 & Hn & H).
  apply as_array_val_inv in Hn as (_ & ->).
  apply bind_val_inv in H as (mapped & t1 & Hm & H).
  apply mapM_cleanup_val in Hm as (-> & Hall).
  unfold ret in H. inversion H. split; [reflexivity|].
  eexists. split; [reflexivity | exact Hall].
Qed.

Lemma set_prop_same_value : forall ps k v,
  lookup ps k = v -> v <> VUndefined -> set_prop ps k v = ps.
Proof.
  induction ps as [|[k' v'] ps IH]; intros k v Hl Hv; simpl in *.
  - congruence.
  - destruct (k' =? k)%string eqn:E.
    + apply String.eqb_eq in E. congruence.
    + f_equal. apply IH; assumption.
Qed.

Lemma filterM_keep_clean : forall r ds t,
  Forall (fun d => nullish d = false /\ carries_alias r d = false) ds ->
  filterM (keep_declarator r) ds t = (Val ds, t).
Proof.
  intros r ds t H. induction H as [|d ds [Hn Hc] Hds IH]; simpl; [reflexivity|].
  unfold bind at 1. unfold keep_declarator at 1. unfold bind, get.
  rewrite Hn. unfold ret. unfold carries_alias in Hc.
  destruct (isValidIdentifier (prop d "id")); simpl in Hc |- *.
  - rewrite Hc. simpl. unfold bind. rewrite IH. reflexivity.
  - unfold bind. rewrite IH. reflexivity.
Qed.

Lemma cleanup_statement_clean : forall r s t,
  clean_statement r s -> cleanup_statement r s t = (Val s, t).
Proof.
  intros r s t [Htr Hvd]. unfold cleanup_statement.
  rewrite (bind_ok _ _ _ _ _ _ _ (get_ok _ "type" t (truthy_not_nullish _ Htr))).
  destruct (str_is (prop s "type") "VariableDeclaration") eqn:Ety;
    [|reflexivity].
  destruct (Hvd eq_refl) as (ds & Hds & Hne & Hall).
  rewrite Hds. simpl.
  unfold bind at 1. simpl. unfold bind at 1.
  rewrite (filterM_keep_clean r ds t Hall).
  assert (Hobj : exists ps, s = VObj ps).
  { apply typed_is_object with (s := "VariableDeclaration").
    unfold opt_prop. rewrite (truthy_not_nullish _ Htr). exact Ety. }
  destruct Hobj as [ps ->]. simpl in Hds.
  destruct ds as [|d ds]; [congruence|].
  unfold ret, spread_with, set_props. simpl.
  rewrite (set_prop_same_value ps "declarations" _ Hds) by discriminate.
  reflexivity.
Qed.

Lemma mapM_cleanup_clean : forall r stmts t,
  Forall (clean_statement r) stmts ->
  mapM (cleanup_statement r) stmts t = (Val stmts, t).
Proof.
  intros r stmts t H. induction H as [|s stmts Hs Hall IH]; simpl; [reflexivity|].
  unfold bind at 1. rewrite (cleanup_statement_clean r s t Hs).
  unfold bind. rewrite IH. reflexivity.
Qed.

Lemma filter_truthy_clean : forall r stmts,
  Forall (clean_statement r) stmts -> filter truthy stmts = stmts.
Proof.
  intros r stmts H. induction H as [|s stmts [Htr _] Hall IH]; simpl;
    [reflexivity|]. rewrite Htr, IH. reflexivity.
Qed.

(** X6. The clean-up is idempotent: run again, with the same aliases, on what
    it returned, it returns the same statements. *)
Theorem cleanup_is_idempotent : forall functionBody r t out t' t2,
  cleanupVariableDeclarations functionBody r t = (Val out, t') ->
  cleanupVariableDeclarations out r t2 = (Val out, t2).
Proof.
  intros functionBody r t out t' t2 H.
  apply cleanup_leaves_no_alias_declarator_aux in H as (stmts & -> & Hall).
  unfold cleanupVariableDeclarations. simpl.
  unfold bind at 1. simpl. unfold bind.
  rewrite (mapM_cleanup_clean r stmts t2 Hall).
  unfold ret. rewrite (filter_truthy_clean r stmts Hall). reflexivity.
Qed.

Lemma cleanup_leaves_no_alias_declarator_witness :
  exists stmts,
    shadowedAliasCleaned = VArr stmts
    /\ Forall (clean_statement (mkReplacements (Some "p") None None)) stmts.
Proof.
  apply (cleanup_leaves_no_alias_declarator (statements_of shadowedAlias)
           (mkReplacements (Some "p") None None) [] shadowedAliasCleaned []).
  vm_compute. reflexivity.
Defined.

Lemma cleanup_is_idempotent_witness :
  cleanupVariableDeclarations shadowedAliasCleaned
    (mkReplacements (Some "p") None None) []
  = (Val shadowedAliasCleaned, []).
Proof.
  apply (cleanup_is_idempotent (statements_of shadowedAlias)
           (mkReplacements (Some "p") None None) [] shadowedAliasCleaned [] []).
  vm_compute. reflexivity.
Defined.

(** X7. The branch that would record an alias of [this] itself is never
    reached: whatever the body declares, [var self = this] included, the
    extraction records no such alias, and so the clean-up keeps every
    declarator whose name is not an alias of [this.props] or of
    [this.constructor]. *)
Theorem this_alias_is_never_recorded : forall functionBody t r t',
  extractVariableReplacements functionBody t = (Val r, t') ->
  thisMirror r = None
  /\ forall idName,
       aliased r idName
       = alias_is (thisProps r) idName || alias_is (thisConstructor r) idName.
Proof.
  intros functionBody t r t' H.
  apply extract_never_records_this in H.
  split; [exact H|].
  intros idName. unfold aliased. rewrite H. simpl. apply orb_false_r.
Qed.

Lemma this_alias_is_never_recorded_witness :
  thisMirror no_replacements = None
  /\ forall idName,
       aliased no_replacements idName
       = alias_is (thisProps no_replacements) idName
         || alias_is (thisConstructor no_replacements) idName.
Proof.
  apply (this_alias_is_never_recorded (statements_of Trees.selfAlias) []
           no_replacements []).
  vm_compute. reflexivity.
Defined.

(** ** The callbacks on a node *)

Lemma prop_obj : forall ps k, prop (VObj ps) k = lookup ps k.
Proof. reflexivity. Qed.

(** X8. The renaming callback works on any receiver and changes nothing of an
    object node but its [type]: a node whose [name] is the target becomes a
    [ThisExpression] that still carries the name, any other node stays as it
    is. *)
Theorem identifierVisitor_changes_only_type : forall target this ps t,
  exists out,
    identifierVisitor target this (VObj ps) t = (Val (VObj out), t)
    /\ lookup out "type"
       = (if strict_eq (lookup ps "name") target then VStr "ThisExpression"
          else lookup ps "type")
    /\ forall k, k <> "type" -> lookup out k = lookup ps k.
Proof.
  intros target this ps t. unfold identifierVisitor, bind, get, ret. simpl.
  destruct (strict_eq (lookup ps "name") target).
  - exists (set_prop ps "type" (VStr "ThisExpression")).
    split; [reflexivity|]. split; [apply lookup_set_prop_same|].
    intros k Hk. apply lookup_set_prop_other. exact Hk.
  - exists ps. auto.
Qed.

(** X9. Run with the class as receiver, the member-expression callback never
    raises and touches nothing of an object node but its [object] and its
    [type]; a node that is no valid member expression is left as it is, and
    an access through the recorded alias of [this.props] gets
    [this.props] as its object and stays a member expression. *)
Theorem memberExpressionVisitor_on_class_receiver : forall r ps t,
  exists out,
    memberExpressionVisitor r ThisClassParser (VObj ps) t = (Val (VObj out), t)
    /\ (forall k, k <> "object" -> k <> "type" -> lookup out k = lookup ps k)
    /\ (isValidMemberExpression (VObj ps) = false -> out = ps)
    /\ (isValidMemberExpression (VObj ps) = true ->
        alias_set (thisProps r) = true ->
        isValidIdentifier (lookup ps "object") = true ->
        alias_is (thisProps r) (name_of (lookup ps "object")) = true ->
        out = set_prop ps "object" this_props_member).
Proof.
  intros r ps t. unfold memberExpressionVisitor, static_method.
  unfold bind at 1. unfold ret at 1.
  destruct (isValidMemberExpression (VObj ps)) eqn:Em; cbn [negb].
  2:{ exists ps. unfold ret. repeat split; auto; discriminate. }
  assert (Htype : lookup ps "type" = VStr "MemberExpression").
  { unfold isValidMemberExpression in Em. simpl in Em.
    destruct (lookup ps "type"); simpl in Em; try discriminate.
    apply andb_true_iff in Em as [Em _]. apply andb_true_iff in Em as [Em _].
    apply String.eqb_eq in Em. congruence. }
  cbn [prop].
  destruct (alias_set (thisProps r) && isValidIdentifier (lookup ps "object")
            && alias_is (thisProps r) (name_of (lookup ps "object"))) eqn:E1.
  - (* the alias of [this.props] *)
    unfold bind, object_assign, ret, set_props. cbn [fold_left fst snd prop].
    rewrite !lookup_set_prop_same.
    change (isValidIdentifier this_props_member) with false. cbv beta iota.
    rewrite !prop_obj, !lookup_set_prop_same.
    change (str_is (prop this_props_member "type") "ThisExpression") with false.
    cbn [andb]. cbv beta iota.
    exists (set_prop ps "object" this_props_member).
    split; [reflexivity|]. split; [|split]; auto; try discriminate.
    intros k Hk _. apply lookup_set_prop_other. exact Hk.
  - unfold bind at 1. unfold ret at 1.
    assert (Hnot : alias_set (thisProps r) = true ->
                   isValidIdentifier (lookup ps "object") = true ->
                   alias_is (thisProps r) (name_of (lookup ps "object")) = true ->
                   False).
    { intros H1 H2 H3. rewrite H1, H2, H3 in E1. discriminate. }
    cbn [prop].
    assert (Hstep : forall qs,
      (forall k, k <> "object" -> k <> "type" -> lookup qs k = lookup ps k) ->
      exists out,
        (if str_is (prop (prop (VObj qs) "object") "type") "ThisExpression"
            && isValidIdentifier (prop (VObj qs) "property")
            && str_is (prop (prop (VObj qs) "property") "name") "constructor"
         then object_assign (VObj qs) [("type", VStr "ThisExpression")]
         else ret (VObj qs)) t = (Val (VObj out), t)
        /\ (forall k, k <> "object" -> k <> "type" -> lookup out k = lookup ps k)).
    { intros qs Hqs.
      destruct (str_is (prop (prop (VObj qs) "object") "type") "ThisExpression"
                && isValidIdentifier (prop (VObj qs) "property")
                && str_is (prop (prop (VObj qs) "property") "name") "constructor").
      - exists (set_prop qs "type" (VStr "ThisExpression")).
        split; [reflexivity|]. intros k Ho Ht.
        rewrite lookup_set_prop_other by exact Ht. apply Hqs; assumption.
      - exists qs. split; [reflexivity | exact Hqs]. }
    assert (Hobj : forall k, k <> "object" -> k <> "type" ->
                   lookup (set_prop ps "object" this_expression) k = lookup ps k).
    { intros k Ho _. apply lookup_set_prop_other. exact Ho. }
    destruct (isValidIdentifier (lookup ps "object")) eqn:Eid.
    + destruct (alias_set (thisConstructor r)
                && alias_is (thisConstructor r) (name_of (lookup ps "object"))).
      * unfold bind, object_assign, ret, set_props. cbn [fold_left fst snd].
        destruct (Hstep _ Hobj) as (out & Hrun & Hout).
        exists out. split; [exact Hrun|]. split; [exact Hout|].
        split; [discriminate|]. intros _ H1 H2 H3. exfalso. auto.
      * destruct (alias_set (thisMirror r)
                  && alias_is (thisMirror r) (name_of (lookup ps "object"))).
        -- unfold bind, object_assign, ret, set_props. cbn [fold_left fst snd].
           destruct (Hstep _ Hobj) as (out & Hrun & Hout).
           exists out. split; [exact Hrun|]. split; [exact Hout|].
           split; [discriminate|]. intros _ H1 H2 H3. exfalso. auto.
        -- unfold bind, ret.
           destruct (Hstep ps (fun k _ _ => eq_refl)) as (out & Hrun & Hout).
           exists out. split; [exact Hrun|]. split; [exact Hout|].
           split; [discriminate|]. intros _ H1 H2 H3. exfalso. auto.
    + unfold bind, ret.
      destruct (Hstep ps (fun k _ _ => eq_refl)) as (out & Hrun & Hout).
      exists out. split; [exact Hrun|]. split; [exact Hout|].
      split; [discriminate|]. intros _ H1 H2 H3. congruence.
Qed.

(** ** The super-call patterns *)

Lemma str_is_typed : forall v s,
  str_is (opt_prop v "type") s = true ->
  nullish v = false /\ str_is (prop v "type") s = true.
Proof.
  intros v s H. destruct (typed_is_object _ _ H) as [ps ->]. auto.
Qed.

Lemma str_is_functional : forall v a b,
  str_is v a = true -> str_is v b = true -> a = b.
Proof.
  intros [ | | x | z | s | l | ps] a b Ha Hb; simpl in *; try discriminate.
  apply String.eqb_eq in Ha, Hb. congruence.
Qed.

Lemma strict_eq_num : forall v z, strict_eq v (VNum z) = true -> v = VNum z.
Proof.
  intros [ | | x | n | s | l | ps] z H; simpl in H; try discriminate.
  apply Z.eqb_eq in H. congruence.
Qed.

Lemma super_assignment_reads : forall stmt m,
  super_assignment stmt m = true ->
  str_is (prop stmt "type") "ExpressionStatement" = true
  /\ nullish stmt = false
  /\ nullish (prop stmt "expression") = false
  /\ nullish (prop (prop stmt "expression") "right") = false
  /\ nullish (super_call_of stmt) = false.
Proof.
  intros stmt m H. unfold super_assignment in H.
  repeat (apply andb_true_iff in H as [H ?]).
  apply str_is_typed in H as [? ?].
  repeat match goal with
         | Hx : str_is (opt_prop _ "type") _ = true |- _ =>
             apply str_is_typed in Hx as [? ?]
         end.
  unfold super_call_of. auto.
Qed.

(** A statement list that starts with two statements other than its last. *)
Lemma two_then_last : forall (stmts : list value) lastNode,
  (2 <= length stmts)%nat ->
  lastNode = last stmts VUndefined ->
  nth 0 stmts VUndefined <> lastNode ->
  nth 1 stmts VUndefined <> lastNode ->
  exists s0 s1 middle,
    stmts = (s0 :: s1 :: middle ++ [lastNode])%list
    /\ removelast (skipn 2 stmts) = middle.
Proof.
  intros stmts lastNode Hlen Hlast H0 H1.
  destruct stmts as [|s0 [|s1 rest]]; simpl in Hlen; try lia.
  destruct rest as [|x rest].
  - simpl in *. congruence.
  - exists s0, s1, (removelast (x :: rest)).
    split; [|reflexivity].
    assert (Hne : x :: rest <> []) by discriminate.
    rewrite (app_removelast_last VUndefined Hne) at 1.
    do 2 f_equal. f_equal. f_equal. subst lastNode. reflexivity.
Qed.

Lemma regular_pattern_inv : forall stmts lastNode superClass t t',
  isRegularSuperCallPattern (VArr stmts) lastNode superClass t = (Val true, t') ->
  t' = t
  /\ truthy superClass = true
  /\ (2 <= length stmts)%nat
  /\ str_is (prop (nth 0 stmts VUndefined) "type") "VariableDeclaration" = true
  /\ nullish (nth 0 stmts VUndefined) = false
  /\ nullish (prop (nth 0 stmts VUndefined) "declarations") = false
  /\ str_is (opt_prop (opt_prop (at_index (prop (nth 0 stmts VUndefined)
                                              "declarations") 0) "id") "type")
        "Identifier" = true
  /\ super_assignment (nth 1 stmts VUndefined) true = true
  /\ returns_declared lastNode
        (at_index (prop (nth 0 stmts VUndefined) "declarations") 0) = true.
Proof.
  intros stmts lastNode sc t t' H. unfold isRegularSuperCallPattern in H.
  destruct (truthy sc) eqn:Esc; simpl in H; [|discriminate].
  unfold bind at 1 in H. simpl in H. unfold bind at 1 in H. simpl in H.
  destruct (Z.of_nat (length stmts) <? 2) eqn:Elen; [discriminate|].
  apply Z.ltb_ge in Elen.
  unfold bind at 1 in H. simpl in H.
  destruct (str_is (opt_prop (nth 0 stmts VUndefined) "type") "VariableDeclaration")
    eqn:Ety; simpl in H; [|discriminate].
  apply str_is_typed in Ety as [Hn0 Ety].
  apply bind_val_inv in H as (d0 & t1 & Hd0 & H).
  apply get_at_val_inv in Hd0 as (Hds & -> & ->).
  unfold ret in H. injection H as Hc Ht.
  apply andb_true_iff in Hc as [Hc Hret].
  apply andb_true_iff in Hc as [Hid Hsup].
  repeat split; auto. lia.
Qed.

Lemma returns_declared_typed : forall lastNode d0,
  returns_declared lastNode d0 = true ->
  str_is (prop lastNode "type") "ReturnStatement" = true.
Proof.
  intros lastNode d0 H. unfold returns_declared in H.
  apply andb_true_iff in H as [H _]. apply andb_true_iff in H as [H _].
  apply str_is_typed in H as [_ H]. exact H.
Qed.

Lemma three_then_last : forall (stmts : list value) lastNode,
  (3 <= length stmts)%nat ->
  lastNode = last stmts VUndefined ->
  nth 0 stmts VUndefined <> lastNode ->
  nth 1 stmts VUndefined <> lastNode ->
  nth 2 stmts VUndefined <> lastNode ->
  exists s0 s1 s2 middle,
    stmts = (s0 :: s1 :: s2 :: middle ++ [lastNode])%list
    /\ removelast (skipn 3 stmts) = middle.
Proof.
  intros stmts lastNode Hlen Hlast H0 H1 H2.
  destruct stmts as [|s0 [|s1 [|s2 rest]]]; simpl in Hlen; try lia.
  destruct rest as [|x rest].
  - simpl in *. congruence.
  - exists s0, s1, s2, (removelast (x :: rest)).
    split; [|reflexivity].
    assert (Hne : x :: rest <> []) by discriminate.
    rewrite (app_removelast_last VUndefined Hne) at 1.
    do 3 f_equal. f_equal. f_equal. subst lastNode. reflexivity.
Qed.

Lemma spread_pattern_inv : forall stmts lastNode functionExpression superClass t t',
  isSpreadArgumentsPattern (VArr stmts) lastNode functionExpression superClass t
  = (Val true, t') ->
  t' = t
  /\ truthy superClass = true
  /\ prop (prop functionExpression "params") "length" = VNum 0
  /\ (3 <= length stmts)%nat
  /\ str_is (prop (nth 0 stmts VUndefined) "type") "VariableDeclaration" = true
  /\ nullish (nth 0 stmts VUndefined) = false
  /\ nullish (prop (nth 0 stmts VUndefined) "declarations") = false
  /\ str_is (opt_prop (opt_prop (at_index (prop (nth 0 stmts VUndefined)
                                              "declarations") 0) "id") "type")
        "Identifier" = true
  /\ str_is (opt_prop (nth 1 stmts VUndefined) "type") "ForStatement" = true
  /\ super_assignment (nth 2 stmts VUndefined) false = true
  /\ returns_declared lastNode
        (at_index (prop (nth 0 stmts VUndefined) "declarations") 0) = true.
Proof.
  intros stmts lastNode fe sc t t' H. unfold isSpreadArgumentsPattern in H.
  destruct (truthy sc) eqn:Esc; simpl in H; [|discriminate].
  apply bind_val_inv in H as (params & t1 & Hp & H).
  apply get_val_inv in Hp as (_ & -> & ->).
  apply bind_val_inv in H as (n & t1 & Hn & H).
  apply get_val_inv in Hn as (_ & -> & ->).
  destruct (strict_eq (prop (prop fe "params") "length") (VNum 0)) eqn:Epar;
    simpl in H; [|discriminate].
  apply strict_eq_num in Epar.
  unfold bind at 1 in H. simpl in H. unfold bind at 1 in H. simpl in H.
  destruct (Z.of_nat (length stmts) <? 3) eqn:Elen; [discriminate|].
  apply Z.ltb_ge in Elen.
  unfold bind at 1 in H. simpl in H.
  destruct (str_is (opt_prop (nth 0 stmts VUndefined) "type") "VariableDeclaration")
    eqn:Ety; simpl in H; [|discriminate].
  apply str_is_typed in Ety as [Hn0 Ety].
  apply bind_val_inv in H as (d0 & t1 & Hd0 & H).
  apply get_at_val_inv in Hd0 as (Hds & -> & ->).
  unfold ret in H. injection H as Hc Ht.
  apply andb_true_iff in Hc as [Hc Hret].
  apply andb_true_iff in Hc as [Hc Hsup].
  apply andb_true_iff in Hc as [Hid Hfor].
  repeat split; auto. lia.
Qed.

Lemma declared_name_ok : forall s0 rest t,
  nullish s0 = false ->
  nullish (prop s0 "declarations") = false ->
  nullish (at_index (prop s0 "declarations") 0) = false ->
  nullish (prop (at_index (prop s0 "declarations") 0) "id") = false ->
  declared_name (VArr (s0 :: rest)) t = (Val (first_declared_name s0), t).
Proof.
  intros s0 rest t H0 H1 H2 H3. unfold declared_name.
  rewrite (bind_ok _ _ _ _ _ _ _ (get_at_ok (VArr _) 0 t eq_refl)).
  change (at_index (VArr (s0 :: rest)) 0) with s0.
  rewrite (bind_ok _ _ _ _ _ _ _ (get_ok _ "declarations" t H0)).
  rewrite (bind_ok _ _ _ _ _ _ _ (get_at_ok _ 0 t H1)).
  rewrite (bind_ok _ _ _ _ _ _ _ (get_ok _ "id" t H2)).
  apply get_ok. exact H3.
Qed.

Section SuperCalls.

Variable walk_ancestor : value -> visitors -> value -> M value.

(** X10. When the regular super-call pattern holds for a statement array and
    its last statement, the array is a declaration, the assignment, some
    statements and the [return]; what [handleRegularSuperCall] hands to the
    renaming walk is [super(...)] on the call's arguments without the first,
    followed by exactly the statements in between, and the name renamed is the
    one the declaration declares. *)
Theorem regular_super_call_drops_scaffolding :
  forall stmts superClass functionExpression walkBase t0 t1 t,
  isRegularSuperCallPattern (VArr stmts) (last stmts VUndefined) superClass t0
  = (Val true, t1) ->
  exists s0 s1 middle,
    stmts = (s0 :: s1 :: middle ++ [last stmts VUndefined])%list
    /\ str_is (prop (last stmts VUndefined) "type") "ReturnStatement" = true
    /\ forall args,
         prop (super_call_of s1) "arguments" = VArr args ->
         handleRegularSuperCall walk_ancestor (VArr stmts) functionExpression
           superClass walkBase t
         = replaceIdentifierReferences walk_ancestor functionExpression
             (VArr (super_call (tl args) :: middle)) (first_declared_name s0)
             walkBase t.
Proof.
  intros stmts sc fe wb t0 t1 t H.
  remember (last stmts VUndefined) as lastNode eqn:Hlast.
  apply regular_pattern_inv in H
    as (_ & Hsc & Hlen & Hty0 & Hn0 & Hds & Hid & Hsup & Hret).
  pose proof (returns_declared_typed _ _ Hret) as Hrty.
  pose proof (super_assignment_reads _ _ Hsup) as (Hty1 & Hn1 & He & Hr & Hl).
  destruct (two_then_last stmts lastNode Hlen Hlast)
    as (s0 & s1 & middle & Hshape & Hmid).
  { intros E. rewrite <- E in Hrty.
    pose proof (str_is_functional _ _ _ Hty0 Hrty). discriminate. }
  { intros E. rewrite <- E in Hrty.
    pose proof (str_is_functional _ _ _ Hty1 Hrty). discriminate. }
  exists s0, s1, middle. split; [exact Hshape|]. split; [exact Hrty|].
  intros args Hargs. clear Hlast. subst stmts.
  simpl in Hn0, Hds, Hid, Hn1, He, Hr, Hl.
  apply str_is_typed in Hid as [Hidn _].
  assert (Hd0 : nullish (at_index (prop s0 "declarations") 0) = false).
  { destruct (at_index (prop s0 "declarations") 0); simpl in *; congruence. }
  unfold opt_prop in Hidn. rewrite Hd0 in Hidn.
  unfold handleRegularSuperCall.
  rewrite (bind_ok _ _ _ _ _ _ _
             (declared_name_ok s0 _ t Hn0 Hds Hd0 Hidn)).
  rewrite (bind_ok _ _ _ _ _ _ _ (get_at_ok (VArr _) 1 t eq_refl)).
  change (at_index (VArr (s0 :: s1 :: middle ++ [lastNode])) 1) with s1.
  rewrite (bind_ok _ _ _ _ _ _ _ (get_ok _ "expression" t Hn1)).
  rewrite (bind_ok _ _ _ _ _ _ _ (get_ok _ "right" t He)).
  rewrite (bind_ok _ _ _ _ _ _ _ (get_ok _ "left" t Hr)).
  fold (super_call_of s1).
  rewrite (bind_ok _ _ _ _ _ _ _ (get_ok _ "arguments" t Hl)).
  rewrite Hargs.
  rewrite (bind_ok _ _ _ _ _ _ _ (eq_refl : iterate (VArr args) t = (Val args, t))).
  rewrite (bind_ok _ _ _ _ _ _ _
             (eq_refl : as_array (VArr (s0 :: s1 :: middle ++ [lastNode])) t
                        = (Val _, t))).
  rewrite Hmid. reflexivity.
Qed.

(** X11. When the spread-arguments pattern holds for a statement array and
    its last statement, the constructor declares no parameter, the array is
    a declaration, the loop, the assignment, some statements and the
    [return]; what [handleSpreadArguments] hands to the renaming walk is
    [super(...args)] followed by exactly the statements in between. *)
Theorem spread_super_call_drops_scaffolding :
  forall stmts superClass functionExpression walkBase t0 t1 t,
  isSpreadArgumentsPattern (VArr stmts) (last stmts VUndefined)
    functionExpression superClass t0 = (Val true, t1) ->
  prop (prop functionExpression "params") "length" = VNum 0
  /\ exists s0 s1 s2 middle,
       stmts = (s0 :: s1 :: s2 :: middle ++ [last stmts VUndefined])%list
       /\ str_is (prop s1 "type") "ForStatement" = true
       /\ str_is (prop (last stmts VUndefined) "type") "ReturnStatement" = true
       /\ handleSpreadArguments walk_ancestor (VArr stmts) functionExpression
            walkBase t
          = replaceIdentifierReferences walk_ancestor functionExpression
              (VArr (super_call [spread_args] :: middle)) (first_declared_name s0)
              walkBase t.
Proof.
  intros stmts sc fe wb t0 t1 t H.
  remember (last stmts VUndefined) as lastNode eqn:Hlast.
  apply spread_pattern_inv in H
    as (_ & Hsc & Hpar & Hlen & Hty0 & Hn0 & Hds & Hid & Hfor & Hsup & Hret).
  split; [exact Hpar|].
  pose proof (returns_declared_typed _ _ Hret) as Hrty.
  pose proof (super_assignment_reads _ _ Hsup) as (Hty2 & _).
  apply str_is_typed in Hfor as [_ Hfor].
  destruct (three_then_last stmts lastNode Hlen Hlast)
    as (s0 & s1 & s2 & middle & Hshape & Hmid).
  { intros E. rewrite <- E in Hrty.
    pose proof (str_is_functional _ _ _ Hty0 Hrty). discriminate. }
  { intros E. rewrite <- E in Hrty.
    pose proof (str_is_functional _ _ _ Hfor Hrty). discriminate. }
  { intros E. rewrite <- E in Hrty.
    pose proof (str_is_functional _ _ _ Hty2 Hrty). discriminate. }
  exists s0, s1, s2, middle. clear Hlast. subst stmts.
  simpl in Hn0, Hds, Hid, Hfor.
  split; [reflexivity|]. split; [exact Hfor|]. split; [exact Hrty|].
  apply str_is_typed in Hid as [Hidn _].
  assert (Hd0 : nullish (at_index (prop s0 "declarations") 0) = false).
  { destruct (at_index (prop s0 "declarations") 0); simpl in *; congruence. }
  unfold opt_prop in Hidn. rewrite Hd0 in Hidn.
  unfold handleSpreadArguments.
  rewrite (bind_ok _ _ _ _ _ _ _
             (declared_name_ok s0 _ t Hn0 Hds Hd0 Hidn)).
  rewrite (bind_ok _ _ _ _ _ _ _
             (eq_refl : as_array (VArr (s0 :: s1 :: s2 :: middle ++ [lastNode])) t
                        = (Val _, t))).
  rewrite Hmid. reflexivity.
Qed.

(** X12. [parseConstructor] leaves the parameter list as it is, unless it
    puts the single rest parameter [...args] in its place, which it does only
    for a class with a superclass whose constructor declares no parameter. *)
Theorem rest_parameter_only_without_parameters :
  forall functionExpression context t out t',
  parseConstructor walk_ancestor functionExpression context t = (Val out, t') ->
  prop out "params" = prop functionExpression "params"
  \/ (prop out "params" = VArr [rest_args]
      /\ truthy (ctx_superClass context) = true
      /\ prop (prop functionExpression "params") "length" = VNum 0).
Proof.
  intros fe ctx t out t' H. unfold parseConstructor in H.
  apply bind_val_inv in H as (b & t1 & Hb & H).
  apply bind_val_inv in H as (fb & t2 & Hfb & H).
  apply bind_val_inv in H as (copy & t3 & Hcopy & H).
  match type of H with
  | (if ?c then _ else _) _ = _ => destruct c
  end.
  - unfold ret in H. inversion H. left. reflexivity.
  - apply bind_val_inv in H as (isSpread & t4 & Hs & H).
    apply bind_val_inv in H as (clone & t5 & _ & H).
    apply bind_val_inv in H as (clone' & t6 & _ & H).
    unfold ret in H. inversion H; subst out t'. clear H.
    unfold spread_with, set_props. simpl.
    rewrite lookup_set_prop_other by discriminate.
    rewrite lookup_set_prop_same.
    destruct isSpread; [right | left; reflexivity].
    split; [reflexivity|].
    unfold isSpreadArgumentsPattern in Hs.
    destruct (truthy (ctx_superClass ctx)); simpl in Hs; [|discriminate].
    split; [reflexivity|].
    apply bind_val_inv in Hs as (params & t7 & Hp & Hs).
    apply get_val_inv in Hp as (_ & -> & ->).
    apply bind_val_inv in Hs as (n & t7 & Hn & Hs).
    apply get_val_inv in Hn as (_ & -> & ->).
    destruct (strict_eq (prop (prop fe "params") "length") (VNum 0)) eqn:E;
      simpl in Hs; [|discriminate].
    apply strict_eq_num. exact E.
Qed.

End SuperCalls.

Lemma regular_super_call_drops_scaffolding_witness :
  exists s0 s1 middle,
    barStatements = (s0 :: s1 :: middle ++ [last barStatements VUndefined])%list
    /\ str_is (prop (last barStatements VUndefined) "type") "ReturnStatement" = true
    /\ forall args,
         prop (super_call_of s1) "arguments" = VArr args ->
         handleRegularSuperCall Acorn.intended (VArr barStatements)
           barConstructorExpression (ident "Foo") VUndefined []
         = replaceIdentifierReferences Acorn.intended barConstructorExpression
             (VArr (super_call (tl args) :: middle)) (first_declared_name s0)
             VUndefined [].
Proof.
  apply (regular_super_call_drops_scaffolding Acorn.intended barStatements
           (ident "Foo") barConstructorExpression VUndefined [] [] []).
  reflexivity.
Defined.

Lemma spread_super_call_drops_scaffolding_witness :
  prop (prop restConstructor "params") "length" = VNum 0
  /\ exists s0 s1 s2 middle,
       restStatements
       = (s0 :: s1 :: s2 :: middle ++ [last restStatements VUndefined])%list
       /\ str_is (prop s1 "type") "ForStatement" = true
       /\ str_is (prop (last restStatements VUndefined) "type") "ReturnStatement"
          = true
       /\ handleSpreadArguments Acorn.intended (VArr restStatements)
            restConstructor VUndefined []
          = replaceIdentifierReferences Acorn.intended restConstructor
              (VArr (super_call [spread_args] :: middle)) (first_declared_name s0)
              VUndefined [].
Proof.
  apply (spread_super_call_drops_scaffolding Acorn.intended restStatements
           (ident "Foo") restConstructor VUndefined [] [] []).
  reflexivity.
Defined.

Lemma rest_parameter_only_without_parameters_witness :
  prop barConstructorRewritten "params" = prop barConstructorExpression "params"
  \/ (prop barConstructorRewritten "params" = VArr [rest_args]
      /\ truthy (ctx_superClass barContextDefaultBase) = true
      /\ prop (prop barConstructorExpression "params") "length" = VNum 0).
Proof.
  apply (rest_parameter_only_without_parameters Acorn.intended
           barConstructorExpression barContextDefaultBase []
           barConstructorRewritten
           [EWalk VUndefined; EWalk VUndefined; EWalk VUndefined]).
  vm_compute. reflexivity.
Defined.

(** ** Methods and the class body *)

Lemma names_constructor_val : forall cc objectName t c t',
  names_constructor cc objectName t = (Val c, t') ->
  t' = t
  /\ truthy c = is_constructor_name cc objectName
  /\ (c = VBool true <-> is_constructor_name cc objectName = true).
Proof.
  intros cc objectName t c t' H. unfold names_constructor in H.
  apply bind_val_inv in H as (cid & t1 & Hcid & H).
  apply get_val_inv in Hcid as (_ & -> & ->).
  unfold ret in H. injection H as Hc Ht. subst c t'.
  unfold is_constructor_name.
  destruct (truthy (prop cc "id")) eqn:E; simpl.
  - split; [reflexivity|]. split; [reflexivity|].
    destruct (strict_eq objectName (prop (prop cc "id") "name"));
      split; congruence.
  - split; [reflexivity|]. split; [exact E|].
    split; [|discriminate]. intros Hc. rewrite Hc in E. discriminate.
Qed.

Lemma names_constructor_ok : forall cc objectName t,
  nullish cc = false ->
  exists c, names_constructor cc objectName t = (Val c, t)
            /\ truthy c = is_constructor_name cc objectName.
Proof.
  intros cc objectName t Hc. unfold names_constructor.
  rewrite (bind_ok _ _ _ _ _ _ _ (get_ok _ _ _ Hc)).
  eexists. split; [reflexivity|].
  unfold is_constructor_name.
  destruct (truthy (prop cc "id")) eqn:E; simpl; [reflexivity | exact E].
Qed.

Section Methods.

Variable walk_ancestor : value -> visitors -> value -> M value.

(** X13. A statement of the factory that does not assign a function to a
    member of the prototype alias or of the constructor gives no class
    member: [null] comes back for it, nothing is raised and no walk is
    started. *)
Theorem other_statements_give_no_method :
  forall protoIdentifier classConstructor context statement t,
  nullish statement = false ->
  (str_is (prop statement "type") "ExpressionStatement" = true ->
   nullish (prop statement "expression") = false) ->
  nullish classConstructor = false ->
  is_method protoIdentifier classConstructor statement = false ->
  method_of_statement walk_ancestor protoIdentifier classConstructor context
    statement t = (Val VNull, t).
Proof.
  intros proto cc ctx stmt t Hs He Hc Hm.
  unfold method_of_statement. unfold is_method, assigns_function in Hm.
  rewrite (bind_ok _ _ _ _ _ _ _ (get_ok _ _ _ Hs)).
  destruct (str_is (prop stmt "type") "ExpressionStatement"); simpl in Hm |- *;
    [|reflexivity].
  rewrite (bind_ok _ _ _ _ _ _ _ (get_ok _ _ _ (He eq_refl))).
  destruct (str_is (prop (prop stmt "expression") "type") "AssignmentExpression");
    simpl in Hm |- *; [|reflexivity].
  destruct (isValidMemberExpression (prop (prop stmt "expression") "left"));
    simpl in Hm |- *; [|reflexivity].
  destruct (isValidFunctionExpression (prop (prop stmt "expression") "right"));
    simpl in Hm |- *; [|reflexivity].
  destruct (isValidIdentifier
              (prop (prop (prop stmt "expression") "left") "object"));
    simpl in Hm |- *; [|reflexivity].
  destruct (isValidIdentifier
              (prop (prop (prop stmt "expression") "left") "property"));
    simpl in Hm |- *; [|reflexivity].
  fold (assignment_object stmt).
  destruct (strict_eq (assignment_object stmt) proto); simpl in Hm;
    [discriminate|].
  destruct (names_constructor_ok cc (assignment_object stmt) t Hc)
    as (c & Hn & Hc').
  unfold bind. rewrite Hn. unfold ret. rewrite Hc', Hm. reflexivity.
Qed.

(** X14. The member made of a method assignment is a method definition, not
    computed, keyed by the property the function is assigned to, with the
    function without its [id] as value; it is static exactly when the object
    assigned to bears the constructor's name, also when that is the name of
    the prototype alias. *)
Theorem method_of_assignment :
  forall protoIdentifier classConstructor context statement t m t',
  method_of_statement walk_ancestor protoIdentifier classConstructor context
    statement t = (Val m, t') ->
  is_method protoIdentifier classConstructor statement = true ->
  prop m "type" = VStr "MethodDefinition"
  /\ prop m "kind" = VStr "method"
  /\ prop m "computed" = VBool false
  /\ prop m "key" = identifier (assignment_property statement)
  /\ prop (prop m "value") "id" = VNull
  /\ (prop m "static" = VBool true
      <-> is_constructor_name classConstructor (assignment_object statement) = true).
Proof.
  intros proto cc ctx stmt t m t' H Hm.
  unfold method_of_statement in H. unfold is_method, assigns_function in Hm.
  apply bind_val_inv in H as (ty & t1 & Hty & H).
  apply get_val_inv in Hty as (_ & -> & ->).
  destruct (str_is (prop stmt "type") "ExpressionStatement"); simpl in H, Hm;
    [|discriminate].
  apply bind_val_inv in H as (ety & t1 & Hety & H).
  apply get_val_inv in Hety as (_ & -> & ->).
  destruct (str_is (prop (prop stmt "expression") "type") "AssignmentExpression");
    simpl in H, Hm; [|discriminate].
  destruct (isValidMemberExpression (prop (prop stmt "expression") "left"));
    simpl in H, Hm; [|discriminate].
  destruct (isValidFunctionExpression (prop (prop stmt "expression") "right"));
    simpl in H, Hm; [|discriminate].
  destruct (isValidIdentifier
              (prop (prop (prop stmt "expression") "left") "object"));
    simpl in H, Hm; [|discriminate].
  destruct (isValidIdentifier
              (prop (prop (prop stmt "expression") "left") "property"));
    simpl in H, Hm; [|discriminate].
  fold (assignment_object stmt) in H. fold (assignment_property stmt) in H.
  apply bind_val_inv in H as (valid & t1 & Hv & H).
  assert (valid = true) as ->.
  { destruct (strict_eq (assignment_object stmt) proto); simpl in Hm.
    - unfold ret in Hv. congruence.
    - apply bind_val_inv in Hv as (c & t2 & Hc & Hv).
      apply names_constructor_val in Hc as (_ & Hc & _).
      unfold ret in Hv. congruence. }
  simpl in H.
  apply bind_val_inv in H as (isStatic & t2 & Hs & H).
  apply names_constructor_val in Hs as (_ & _ & Hs).
  apply bind_val_inv in H as (body' & t3 & _ & H).
  unfold ret in H. injection H as H Ht. subst m.
  unfold method_definition, node_of, spread_with, set_props. simpl.
  rewrite lookup_set_prop_other by discriminate.
  rewrite lookup_set_prop_same.
  repeat split; auto; apply Hs.
Qed.

Lemma mapM_length : forall A B (f : A -> M B) l t r t',
  mapM f l t = (Val r, t') -> length r = length l.
Proof.
  induction l as [|x l IH]; intros t r t' H; simpl in H.
  - unfold ret in H. inversion H. reflexivity.
  - apply bind_val_inv in H as (y & t1 & _ & H).
    apply bind_val_inv in H as (ys & t2 & Hys & H).
    apply IH in Hys. unfold ret in H. inversion H. simpl. congruence.
Qed.

(** X15. The class body has one entry for each statement of the factory,
    and before them the constructor method unless the constructor's body
    starts with a [return]: then the class gets no constructor. *)
Theorem class_body_entries :
  forall protoIdentifier classConstructor stmts context t body t',
  buildClassBody walk_ancestor protoIdentifier classConstructor (VArr stmts)
    context t = (Val body, t') ->
  if returns_at_once classConstructor
  then length body = length stmts
  else exists c rest,
         body = c :: rest /\ length rest = length stmts
         /\ prop c "type" = VStr "MethodDefinition"
         /\ prop c "key" = identifier (VStr "constructor")
         /\ prop c "static" = VBool false.
Proof.
  intros proto cc stmts ctx t body t' H. unfold buildClassBody in H.
  apply bind_val_inv in H as (b & t1 & Hb & H).
  apply get_val_inv in Hb as (_ & -> & ->).
  apply bind_val_inv in H as (ss & t1 & Hss & H).
  apply get_val_inv in Hss as (_ & -> & ->).
  apply bind_val_inv in H as (s0 & t1 & Hs0 & H).
  apply get_at_val_inv in Hs0 as (_ & -> & ->).
  fold (statements_of cc) in H. fold (returns_at_once cc) in H.
  apply bind_val_inv in H as (ctor & t1 & Hctor & H).
  apply bind_val_inv in H as (methods & t2 & Hm & H).
  unfold createMethodsFromFunctionBody in Hm.
  apply bind_val_inv in Hm as (l & t3 & Hl & Hm).
  apply as_array_val_inv in Hl as (Hl & ->). inversion Hl; subst l.
  apply mapM_length in Hm.
  unfold ret in H. injection H as H Ht. subst body.
  destruct (returns_at_once cc); simpl in Hctor.
  - unfold ret in Hctor. inversion Hctor. simpl. exact Hm.
  - apply bind_val_inv in Hctor as (c & t4 & Hc & Hctor).
    unfold ret in Hctor. inversion Hctor. subst ctor.
    exists c, methods. split; [reflexivity|]. split; [exact Hm|].
    unfold createConstructorMethod in Hc.
    apply bind_val_inv in Hc as (b & t5 & _ & Hc).
    apply bind_val_inv in Hc as (body' & t6 & _ & Hc).
    apply bind_val_inv in Hc as (v & t7 & _ & Hc).
    unfold ret in Hc. inversion Hc. auto.
Qed.

End Methods.

Lemma other_statements_give_no_method_witness :
  method_of_statement Acorn.ancestor (VStr "_proto") barConstructor barContext
    returnBar []
  = (Val VNull, []).
Proof.
  apply (other_statements_give_no_method Acorn.ancestor (VStr "_proto")
           barConstructor barContext returnBar []);
    [reflexivity | discriminate | reflexivity | reflexivity].
Defined.

Lemma method_of_assignment_witness :
  is_method (VStr "_proto") barConstructor getAssignment = true
  /\ prop getMethod "type" = VStr "MethodDefinition"
  /\ prop getMethod "kind" = VStr "method"
  /\ prop getMethod "computed" = VBool false
  /\ prop getMethod "key" = identifier (assignment_property getAssignment)
  /\ prop (prop getMethod "value") "id" = VNull
  /\ (prop getMethod "static" = VBool true
      <-> is_constructor_name barConstructor (assignment_object getAssignment)
          = true).
Proof.
  split; [reflexivity|].
  apply (method_of_assignment Acorn.intended (VStr "_proto") barConstructor
           barContext getAssignment [] getMethod [EWalk (VObj [])]).
  - vm_compute. reflexivity.
  - reflexivity.
Defined.

Lemma class_body_entries_witness :
  returns_at_once barConstructor = false
  /\ exists c rest,
       barBody = c :: rest
       /\ length rest = length (Spec.elems (statements_of barFactory))
       /\ prop c "type" = VStr "MethodDefinition"
       /\ prop c "key" = identifier (VStr "constructor")
       /\ prop c "static" = VBool false.
Proof.
  split; [reflexivity|].
  exact (class_body_entries Acorn.intended (VStr "_proto") barConstructor
           (Spec.elems (statements_of barFactory)) barContext [] barBody
           (snd (buildClassBody Acorn.intended (VStr "_proto") barConstructor
                   (statements_of barFactory) barContext []))
           eq_refl).
Defined.

(** ** What the two assemblers write *)

Lemma lookup_set_props_other : forall upd ps k,
  Forall (fun kv => fst kv <> k) upd ->
  lookup (set_props ps upd) k = lookup ps k.
Proof.
  unfold set_props.
  induction upd as [|[k' v] upd IH]; intros ps k H; simpl; [reflexivity|].
  inversion H as [|? ? Hk Hrest]; subst.
  rewrite IH by exact Hrest.
  apply lookup_set_prop_other. intro E. apply Hk. simpl. congruence.
Qed.

Lemma class_fields_other : forall ps context classBody k,
  class_key k = false ->
  lookup (set_props ps (class_fields context classBody)) k = lookup ps k.
Proof.
  intros ps context classBody k Hk. apply lookup_set_props_other.
  unfold class_key in Hk. simpl in Hk.
  repeat (apply orb_false_elim in Hk as [?%String.eqb_neq Hk]).
  unfold class_fields. repeat constructor; simpl; congruence.
Qed.

Lemma class_fields_written : forall ps context classBody,
  lookup (set_props ps (class_fields context classBody)) "id"
  = identifier (ctx_name context)
  /\ lookup (set_props ps (class_fields context classBody)) "superClass"
     = ctx_superClass context
  /\ exists members,
       lookup (set_props ps (class_fields context classBody)) "body"
       = node_of "ClassBody" [("body", VArr members)]
       /\ Forall (fun m => truthy m = true) members.
Proof.
  intros ps context classBody. unfold class_fields, set_props. simpl.
  rewrite !lookup_set_prop_same.
  rewrite !lookup_set_prop_other by discriminate.
  rewrite !lookup_set_prop_same.
  rewrite !lookup_set_prop_other by discriminate.
  rewrite !lookup_set_prop_same.
  split; [reflexivity|]. split; [reflexivity|].
  exists (filter truthy classBody). split; [reflexivity|].
  apply Forall_forall. intros m Hm. apply filter_In in Hm. apply Hm.
Qed.

Section Outputs.

Variable walk_ancestor : value -> visitors -> value -> M value.
Variable recast_print : value -> outcome value.
Variable indexOf : value -> list value -> Z.

Lemma parse_with_context : forall node parent walkBase t ct context t1,
  truthy walkBase = true ->
  fst (findClassType node parent t) = Val (Some ct) ->
  buildParsingContext recast_print node parent ct t = (Val (Some context), t1) ->
  parse walk_ancestor recast_print indexOf node parent walkBase t
  = parseClassByType walk_ancestor indexOf ct node parent context t1.
Proof.
  intros node parent walkBase t ct context t1 Hw Hf Hc.
  rewrite (parse_after_classification _ _ _ _ _ _ _ _ Hw Hf).
  rewrite (bind_ok _ _ _ _ _ _ _ Hc). reflexivity.
Qed.

(** X16. For a directly called factory the variable declaration itself is
    turned into the class declaration: [type], [id], [superClass] and [body]
    are written from the context, the body holds no [null] entry, and every
    other field of the variable declaration, [declarations] with the factory
    call and [kind] among them, stays on the node. *)
Theorem direct_factory_becomes_class_declaration :
  forall node parent walkBase t context t1 out t',
  truthy walkBase = true ->
  fst (findClassType node parent t) = Val (Some Class) ->
  buildParsingContext recast_print node parent Class t
  = (Val (Some context), t1) ->
  parse walk_ancestor recast_print indexOf node parent walkBase t = (Val out, t') ->
  prop out "type" = VStr "ClassDeclaration"
  /\ prop out "id" = identifier (ctx_name context)
  /\ prop out "superClass" = ctx_superClass context
  /\ (exists members,
        prop out "body" = node_of "ClassBody" [("body", VArr members)]
        /\ Forall (fun m => truthy m = true) members)
  /\ forall k, class_key k = false -> prop out k = prop parent k.
Proof.
  intros node parent walkBase t context t1 out t' Hw Hf Hc H.
  rewrite (parse_with_context _ _ _ _ _ _ _ Hw Hf Hc) in H. simpl in H.
  apply findClassType_some_inv in Hf
    as (ns & ps & qs & -> & -> & _ & _ & _).
  unfold parseRegularClass in H.
  apply bind_val_inv in H as (classBody & t2 & _ & H).
  unfold ret in H. injection H as H Ht. subst out.
  unfold spread_with, spread_props. rewrite !prop_obj.
  destruct (class_fields_written ps context classBody) as (Hid & Hsc & Hbody).
  split; [apply class_fields_type|].
  split; [exact Hid|]. split; [exact Hsc|]. split; [exact Hbody|].
  intros k Hk. rewrite !prop_obj. apply class_fields_other. exact Hk.
Qed.

(** X17. For a factory under [new] the variable declaration keeps every
    field but [declarations]; the declarator that is put last keeps every
    field of the candidate but [init]; and its [init] keeps every field of
    the [new] expression but [callee], which is the class declaration. *)
Theorem new_factory_keeps_the_wrappers :
  forall node parent walkBase t context t1 out t',
  truthy walkBase = true ->
  fst (findClassType node parent t) = Val (Some NewClass) ->
  buildParsingContext recast_print node parent NewClass t
  = (Val (Some context), t1) ->
  parse walk_ancestor recast_print indexOf node parent walkBase t = (Val out, t') ->
  (forall k, k <> "declarations" -> prop out k = prop parent k)
  /\ (forall k, k <> "init" -> prop (last_declarator out) k = prop node k)
  /\ (forall k, k <> "callee" ->
        prop (prop (last_declarator out) "init") k = prop (prop node "init") k)
  /\ prop (prop (prop (last_declarator out) "init") "callee") "type"
     = VStr "ClassDeclaration"
  /\ prop (prop (prop (last_declarator out) "init") "callee") "id"
     = identifier (ctx_name context)
  /\ prop (prop (prop (last_declarator out) "init") "callee") "superClass"
     = ctx_superClass context.
Proof.
  intros node parent walkBase t context t1 out t' Hw Hf Hc H.
  rewrite (parse_with_context _ _ _ _ _ _ _ Hw Hf Hc) in H. simpl in H.
  apply findClassType_some_inv in Hf
    as (ns & ps & qs & -> & -> & _ & Hinit & _).
  unfold parseNewClass in H.
  apply bind_val_inv in H as (classBody & t2 & _ & H).
  apply bind_val_inv in H as (decls & t3 & Hd & H).
  apply get_val_inv in Hd as (_ & -> & ->).
  apply bind_val_inv in H as (ds & t3 & Hds & H).
  apply as_array_val_inv in Hds as (Hds & ->).
  apply bind_val_inv in H as (init & t3 & Hi & H).
  apply get_val_inv in Hi as (_ & -> & ->).
  unfold ret in H. injection H as H Ht. subst out.
  rewrite prop_obj, Hinit.
  unfold last_declarator, spread_with, spread_props, set_props. simpl.
  split.
  { intros k Hk. apply lookup_set_prop_other. exact Hk. }
  rewrite lookup_set_prop_same. simpl. rewrite last_append. simpl.
  unfold rewritten_declarator, spread_with, spread_props, set_props. simpl.
  split.
  { intros k Hk. apply lookup_set_prop_other. exact Hk. }
  rewrite !lookup_set_prop_same. simpl.
  split.
  { intros k Hk. apply lookup_set_prop_other. exact Hk. }
  rewrite !lookup_set_prop_same. simpl.
  repeat split.
Qed.

End Outputs.

Lemma direct_factory_becomes_class_declaration_witness :
  prop tagOutput "type" = VStr "ClassDeclaration"
  /\ prop tagOutput "id" = identifier (ctx_name tagContext)
  /\ prop tagOutput "superClass" = ctx_superClass tagContext
  /\ (exists members,
        prop tagOutput "body" = node_of "ClassBody" [("body", VArr members)]
        /\ Forall (fun m => truthy m = true) members)
  /\ forall k, class_key k = false -> prop tagOutput k = prop tagDeclaration k.
Proof.
  apply (direct_factory_becomes_class_declaration Acorn.ancestor Recast.print
           (Heap.element 0)
           tagDeclarator tagDeclaration someBase [] tagContext [] tagOutput []).
  - reflexivity.
  - reflexivity.
  - vm_compute. reflexivity.
  - vm_compute. reflexivity.
Defined.

Lemma new_factory_keeps_the_wrappers_witness :
  (forall k, k <> "declarations" -> prop newTagOutput k = prop newTagDeclaration k)
  /\ (forall k, k <> "init" ->
        prop (last_declarator newTagOutput) k = prop newTagDeclarator k)
  /\ (forall k, k <> "callee" ->
        prop (prop (last_declarator newTagOutput) "init") k
        = prop (prop newTagDeclarator "init") k)
  /\ prop (prop (prop (last_declarator newTagOutput) "init") "callee") "type"
     = VStr "ClassDeclaration"
  /\ prop (prop (prop (last_declarator newTagOutput) "init") "callee") "id"
     = identifier (ctx_name tagContext)
  /\ prop (prop (prop (last_declarator newTagOutput) "init") "callee") "superClass"
     = ctx_superClass tagContext.
Proof.
  apply (new_factory_keeps_the_wrappers Acorn.ancestor Recast.print
           (Heap.element 1)
           newTagDeclarator newTagDeclaration someBase [] tagContext []
           newTagOutput []).
  - reflexivity.
  - reflexivity.
  - vm_compute. reflexivity.
  - vm_compute. reflexivity.
Defined.

(** ** The constructor method, the context and the walk base *)

Section Constructor.

Variable walk_ancestor : value -> visitors -> value -> M value.
Variable recast_print : value -> outcome value.
Variable indexOf : value -> list value -> Z.

Lemma parseConstructor_keeps_fields : forall fs context t out t' k,
  parseConstructor walk_ancestor (VObj fs) context t = (Val out, t') ->
  k <> "params" -> k <> "body" ->
  prop out k = lookup fs k.
Proof.
  intros fs context t out t' k H Hp Hb. unfold parseConstructor in H.
  apply bind_val_inv in H as (b & t1 & _ & H).
  apply bind_val_inv in H as (functionBody & t2 & _ & H).
  apply bind_val_inv in H as (copy & t3 & _ & H).
  match type of H with
  | (if ?c then _ else _) _ = _ => destruct c
  end.
  - unfold ret in H. inversion H. reflexivity.
  - apply bind_val_inv in H as (isSpread & t4 & _ & H).
    apply bind_val_inv in H as (clone & t5 & _ & H).
    apply bind_val_inv in H as (clone' & t6 & _ & H).
    unfold ret in H. injection H as H Ht. subst out.
    unfold spread_with, spread_props. rewrite prop_obj.
    apply lookup_set_props_other.
    repeat constructor; simpl; congruence.
Qed.

(** X18. The constructor method carries the constructor as an anonymous
    function expression: its value has type [FunctionExpression] and a
    [null] id, whatever the declaration was called, and every field of the
    declaration other than [type], [id], [params] and [body] is kept. *)
Theorem constructor_method_value : forall cs context t m t',
  createConstructorMethod walk_ancestor (VObj cs) context t = (Val m, t') ->
  prop m "type" = VStr "MethodDefinition"
  /\ prop m "kind" = VStr "method"
  /\ prop (prop m "value") "type" = VStr "FunctionExpression"
  /\ prop (prop m "value") "id" = VNull
  /\ forall k,
       k <> "type" -> k <> "id" -> k <> "params" -> k <> "body" ->
       prop (prop m "value") k = lookup cs k.
Proof.
  intros cs context t m t' H. unfold createConstructorMethod in H.
  apply bind_val_inv in H as (b & t1 & _ & H).
  apply bind_val_inv in H as (body' & t2 & _ & H).
  apply bind_val_inv in H as (v & t3 & Hv & H).
  unfold ret in H. injection H as H Ht. subst m.
  unfold spread_with, spread_props in Hv.
  assert (Hk : forall k, k <> "params" -> k <> "body" ->
               prop v k
               = lookup (set_props cs
                           [("type", VStr "FunctionExpression"); ("id", VNull);
                            ("body", VObj (set_props
                                             match b with
                                             | VObj ps => ps
                                             | VArr l => indexed l
                                             | VStr s => indexed (chars s)
                                             | _ => []
                                             end [("body", body')]))]) k).
  { intros k Hp Hb. eapply parseConstructor_keeps_fields; eauto. }
  unfold method_definition, node_of. rewrite !prop_obj. simpl.
  split; [reflexivity|]. split; [reflexivity|].
  split.
  { rewrite Hk by discriminate. unfold set_props. simpl.
    rewrite !lookup_set_prop_other by discriminate.
    apply lookup_set_prop_same. }
  split.
  { rewrite Hk by discriminate. unfold set_props. simpl.
    rewrite !lookup_set_prop_other by discriminate.
    apply lookup_set_prop_same. }
  intros k H1 H2 H3 H4. rewrite Hk by assumption.
  apply lookup_set_props_other. repeat constructor; simpl; congruence.
Qed.

(** X19. Reading the context never raises.  When an exception is raised in
    the [try] block, whichever it is, the result is [null] and exactly one
    warning has been printed; when none is raised, the result is that of the
    [try] block and nothing has been printed.  So a warning is printed
    exactly when the [try] block raised. *)
Theorem buildParsingContext_never_raises : forall node parent classType t,
  (forall e, fst (buildParsingContext recast_print node parent classType t)
             <> Exn e)
  /\ (forall e,
        fst (extract_context recast_print node parent classType t) = Exn e ->
        buildParsingContext recast_print node parent classType t
        = (Val None, (t ++ [EWarn])%list))
  /\ ((forall e,
         fst (extract_context recast_print node parent classType t) <> Exn e) ->
      buildParsingContext recast_print node parent classType t
      = (fst (extract_context recast_print node parent classType t), t))
  /\ (snd (buildParsingContext recast_print node parent classType t) <> t
      <-> exists e,
            fst (extract_context recast_print node parent classType t) = Exn e).
Proof.
  intros node parent classType t. unfold buildParsingContext, try_catch.
  pose proof (extract_context_silent recast_print node parent classType t) as Hs.
  assert (Hne : (t ++ [EWarn])%list <> t).
  { intro E. apply (f_equal (@length event)) in E.
    rewrite length_app in E. simpl in E. lia. }
  destruct (extract_context recast_print node parent classType t) as [[o | e |] t1];
    simpl in Hs; subst t1; simpl.
  - split; [discriminate|]. split; [discriminate|]. split; [reflexivity|].
    split; [intros H; exfalso; auto | intros (e & H); discriminate].
  - split; [discriminate|]. split; [reflexivity|].
    split; [intros H; exfalso; apply (H e); reflexivity|].
    split; [intros _; exists e; reflexivity | intros _; exact Hne].
  - split; [discriminate|]. split; [discriminate|]. split; [reflexivity|].
    split; [intros H; exfalso; auto | intros (e & H); discriminate].
Qed.

(** X20. Of the walk base [parse] is given it uses nothing but whether it is
    truthy: two truthy bases, or two falsy ones, give the same result and the
    same calls to the walker. *)
Theorem parse_reads_only_truthiness_of_walkBase :
  forall node parent walkBase1 walkBase2 t,
  truthy walkBase1 = truthy walkBase2 ->
  parse walk_ancestor recast_print indexOf node parent walkBase1 t
  = parse walk_ancestor recast_print indexOf node parent walkBase2 t.
Proof.
  intros node parent walkBase1 walkBase2 t H. unfold parse. rewrite H.
  reflexivity.
Qed.

End Constructor.

Lemma constructor_method_value_witness :
  exists c rest,
    barBody = c :: rest
    /\ prop c "type" = VStr "MethodDefinition"
    /\ prop c "kind" = VStr "method"
    /\ prop (prop c "value") "type" = VStr "FunctionExpression"
    /\ prop (prop c "value") "id" = VNull
    /\ forall k,
         k <> "type" -> k <> "id" -> k <> "params" -> k <> "body" ->
         prop (prop c "value") k = prop barConstructor k.
Proof.
  exists (hd VUndefined barBody), (tl barBody). split; [reflexivity|].
  apply (constructor_method_value Acorn.intended (spread_props barConstructor)
           barContext [] (hd VUndefined barBody)
           (snd (createConstructorMethod Acorn.intended barConstructor
                   barContext []))).
  vm_compute. reflexivity.
Defined.

Lemma parse_reads_only_truthiness_of_walkBase_witness :
  run_parse barDeclarator barDeclaration someBase []
  = run_parse barDeclarator barDeclaration (VBool true) [].
Proof.
  apply (parse_reads_only_truthiness_of_walkBase Acorn.ancestor Recast.print
           (Heap.element 0)
           barDeclarator barDeclaration someBase (VBool true) []).
  reflexivity.
Defined.
